(** * StreekX search service: chat sessions, streaming and the HTTP proxy

    A shallow embedding of [services/geminiService.ts]
    ([generateSearchResponse], the session registry [chatSessions], the
    source extraction and the [uniqueSources] filter) and of the edge
    function [supabase/functions/search/index.ts] (the [serve] handler),
    with the properties the specification states about them. *)

From Stdlib Require Import PrimFloat Ascii String.
From Stdlib.Strings Require Byte.
From stdpp Require Import gmap strings list fin_maps.

Set Default Proof Using "Type".
Set Warnings "-clear-no-such-hyp,-register-all".

(** ** JavaScript values used by the service *)

(** The line feed character of the JavaScript escapes [\n]. *)
Definition LF : string := String "010"%char EmptyString.

(** [if (text)] on a string: every string but the empty one is truthy. *)
Definition truthy_string (s : string) : bool :=
  match s with
  | EmptyString => false
  | String _ _ => true
  end.

(** [if (v)] on a value that is a string or [undefined]. *)
Definition truthy (v : option string) : bool :=
  match v with
  | Some s => truthy_string s
  | None => false
  end.

(** [v || d] where [v] is a string or [undefined] and [d] a string. *)
Definition or_default (v : option string) (d : string) : string :=
  match v with
  | Some s => if truthy_string s then s else d
  | None => d
  end.

(** ** types.ts and the provider's response objects *)

(** [interface SearchSource]. *)
Record SearchSource := { title : string; uri : string }.

#[global] Instance SearchSource_eq_dec : EqDecision SearchSource.
Proof. solve_decision. Defined.

(** [c.web] of a grounding chunk: both fields are optional. *)
Record Web := { web_title : option string; web_uri : option string }.

(** An entry of [groundingMetadata.groundingChunks]. *)
Record GroundingChunk := { web : option Web }.

Record GroundingMetadata := { groundingChunks : option (list GroundingChunk) }.

Record Candidate := { groundingMetadata : option GroundingMetadata }.

(** A chunk of the response stream: [chunk.text] and [chunk.candidates]. *)
Record Chunk := { text : option string; candidates : option (list Candidate) }.

(** [interface GenerationResult]. *)
Record GenerationResult := { result_text : string; sources : list SearchSource }.

(** ** Source extraction (geminiService.ts, lines 57-67) *)

(** [chunk.candidates?.[0]?.groundingMetadata?.groundingChunks]. *)
Definition chunk_groundingChunks (chunk : Chunk) : option (list GroundingChunk) :=
  match candidates chunk with
  | Some (c0 :: _) =>
      match groundingMetadata c0 with
      | Some gm => groundingChunks gm
      | None => None
      end
  | _ => None
  end.

(** The body of the [forEach] callback: what one entry pushes. *)
Definition extract_entry (c : GroundingChunk) : list SearchSource :=
  match web c with
  | Some w =>
      [ {| title := or_default (web_title w) "Source";
           uri := or_default (web_uri w) "#" |} ]
  | None => []
  end.

(** [groundingChunks.forEach(...)]: the pushes of all entries, in order. *)
Definition extract_entries (gcs : list GroundingChunk) : list SearchSource :=
  flat_map extract_entry gcs.

(** What one chunk appends to [sources]. *)
Definition extract (chunk : Chunk) : list SearchSource :=
  match chunk_groundingChunks chunk with
  | Some gcs => extract_entries gcs
  | None => []
  end.

(** ** Deduplication (geminiService.ts, lines 70-74) *)

(** [Array.prototype.findIndex]: the index of the first element that
    satisfies [p], and [-1] when there is none. *)
Fixpoint findIndex_from {A} (p : A → bool) (i : Z) (l : list A) : Z :=
  match l with
  | [] => (-1)%Z
  | x :: r => if p x then i else findIndex_from p (i + 1)%Z r
  end.

Definition findIndex {A} (p : A → bool) (l : list A) : Z := findIndex_from p 0%Z l.

(** [Array.prototype.filter] with the three-argument callback
    [(element, index, self)]; [i] is the index of the head of [l]. *)
Fixpoint filter_from {A} (p : A → Z → list A → bool) (self : list A) (i : Z)
    (l : list A) : list A :=
  match l with
  | [] => []
  | x :: r =>
      if p x i self then x :: filter_from p self (i + 1)%Z r
      else filter_from p self (i + 1)%Z r
  end.

Definition js_filter {A} (p : A → Z → list A → bool) (l : list A) : list A :=
  filter_from p l 0%Z l.

(** [t.uri === source.uri]. *)
Definition same_uri (source t : SearchSource) : bool :=
  bool_decide (uri t = uri source).

Definition uniqueSources (sources : list SearchSource) : list SearchSource :=
  js_filter (λ source index self,
               bool_decide (index = findIndex (same_uri source) self))
            sources.

(** The deduplication as the specification words it: walk the list and
    keep an entry exactly when its URI has not been seen before. *)
Fixpoint dedupe_seen (seen : list string) (l : list SearchSource) : list SearchSource :=
  match l with
  | [] => []
  | s :: r =>
      if bool_decide (uri s ∈ seen) then dedupe_seen seen r
      else s :: dedupe_seen (uri s :: seen) r
  end.

Definition dedupe (l : list SearchSource) : list SearchSource := dedupe_seen [] l.

(** ** Effects of the service

    The service throws and catches exceptions, mutates the module-level
    map [chatSessions], and talks to three collaborators: the provider
    SDK, the caller's callback and the console.  A computation takes the
    state of the module and returns its outcome, the new state and the
    calls it made to the collaborators, in order. *)

(** A thrown value. *)
Record Error := { message : string }.

Inductive outcome (A : Type) :=
  | Returned (a : A)
  | Threw (e : Error).
Arguments Returned {A} a.
Arguments Threw {A} e.

(** A [Chat] object of the SDK.  JavaScript objects have an identity:
    [chat_ref] is the rank of the object among the ones [ai.chats.create]
    has returned so far. *)
Record Chat := { chat_ref : nat }.

#[global] Instance Chat_eq_dec : EqDecision Chat.
Proof. solve_decision. Defined.

Inductive Tool := googleSearch.

Record ChatConfig := { tools : list Tool; systemInstruction : string }.

Inductive Event :=
  | EvCreate (chat : Chat) (model : string) (config : ChatConfig)
      (* ai.chats.create({model, config}) returned chat *)
  | EvSet (sessionId : string) (chat : Chat)
      (* chatSessions.set(sessionId, chat) *)
  | EvSend (chat : Chat) (msg : string)
      (* chat.sendMessageStream({message}) *)
  | EvGenerate (model contents instruction : string)
      (* ai.models.generateContentStream({model, contents, config}) *)
  | EvChunk (increment : string)
      (* onChunk(increment) *)
  | EvWarn (label : string) (error : Error).
      (* console.warn(label, error) *)

(** The module state: the map [chatSessions] and the number of [Chat]
    objects created so far. *)
Record State := { chatSessions : gmap string Chat; created : nat }.

Definition initial_state : State := {| chatSessions := ∅; created := 0 |}.

Definition M (A : Type) : Type := State → outcome A * State * list Event.

Definition ret {A} (a : A) : M A := λ st, (Returned a, st, []).

Definition throw {A} (e : Error) : M A := λ st, (Threw e, st, []).

Definition bind {A B} (m : M A) (k : A → M B) : M B :=
  λ st,
    match m st with
    | (Returned a, st1, ev1) =>
        match k a st1 with
        | (r, st2, ev2) => (r, st2, ev1 ++ ev2)
        end
    | (Threw e, st1, ev1) => (Threw e, st1, ev1)
    end.

(** [try { m } catch (e) { h e }]: the effects of [m] up to the throw stay. *)
Definition try_catch {A} (m : M A) (h : Error → M A) : M A :=
  λ st,
    match m st with
    | (Returned a, st1, ev1) => (Returned a, st1, ev1)
    | (Threw e, st1, ev1) =>
        match h e st1 with
        | (r, st2, ev2) => (r, st2, ev1 ++ ev2)
        end
    end.

Definition emit (e : Event) : M unit := λ st, (Returned tt, st, [e]).

Definition lift_outcome {A} (o : outcome A) : M A := λ st, (o, st, []).

Declare Scope js_scope.
Delimit Scope js_scope with js.
Notation "x <- m ;; k" := (bind m (λ x, k))
  (at level 100, m at next level, right associativity) : js_scope.
Notation "m ;;; k" := (bind m (λ _, k))
  (at level 100, right associativity) : js_scope.
Local Open Scope js_scope.

Definition outcome_of {A} (r : outcome A * State * list Event) : outcome A := r.1.1.
Definition state_of {A} (r : outcome A * State * list Event) : State := r.1.2.
Definition events_of {A} (r : outcome A * State * list Event) : list Event := r.2.

(** *** The collaborators *)

(** An async iterator over chunks: it yields a chunk, ends, or throws. *)
Inductive Stream :=
  | SDone
  | SThrow (e : Error)
  | SYield (chunk : Chunk) (rest : Stream).

(** How the provider answers the requests of one call of the service. *)
Record Provider := {
  sendMessageStream : Chat → string → outcome Stream;
  generateContentStream : string → string → string → outcome Stream
}.

(** The caller's callback: it returns or throws. *)
Definition Callback : Type := string → outcome unit.

Definition call (onChunk : Callback) (increment : string) : M unit :=
  emit (EvChunk increment) ;;; lift_outcome (onChunk increment).

Definition console_warn (label : string) (error : Error) : M unit :=
  emit (EvWarn label error).

(** [ai.chats.create]: a constructor of the SDK; it sends nothing to
    the provider and returns a new object. *)
Definition chats_create (model : string) (config : ChatConfig) : M Chat :=
  λ st,
    let chat := {| chat_ref := created st |} in
    (Returned chat,
     {| chatSessions := chatSessions st; created := S (created st) |},
     [EvCreate chat model config]).

(** [chatSessions.get(sessionId)]. *)
Definition sessions_get (sessionId : string) : M (option Chat) :=
  λ st, (Returned (chatSessions st !! sessionId), st, []).

(** [chatSessions.set(sessionId, chat)]. *)
Definition sessions_set (sessionId : string) (chat : Chat) : M unit :=
  λ st,
    (Returned tt,
     {| chatSessions := <[sessionId := chat]> (chatSessions st); created := created st |},
     [EvSet sessionId chat]).

Definition send (P : Provider) (chat : Chat) (msg : string) : M Stream :=
  emit (EvSend chat msg) ;;; lift_outcome (sendMessageStream P chat msg).

Definition models_generate (P : Provider) (model contents instruction : string) : M Stream :=
  emit (EvGenerate model contents instruction) ;;;
  lift_outcome (generateContentStream P model contents instruction).

(** ** generateSearchResponse (geminiService.ts, lines 14-116) *)

Definition chat_model : string := "gemini-3-flash-preview".

Definition chat_instruction : string :=
  "You are StreekX, a real-time AI search engine. " +:+ LF +:+
  "RULES:" +:+ LF +:+
  "- NEVER answer from your own knowledge." +:+ LF +:+
  "- ALWAYS use the googleSearch tool for every query to get the latest information." +:+ LF +:+
  "- If the search tool returns no results, state that you cannot find the information." +:+ LF +:+
  "- Provide concise, accurate answers in markdown." +:+ LF +:+
  "- Do not guess or hallucinate." +:+ LF +:+
  "- Always cite your sources inline using the provided grounding metadata.".

Definition chat_config : ChatConfig :=
  {| tools := [googleSearch]; systemInstruction := chat_instruction |}.

Definition fallbackModel : string := "gemini-3-flash-preview".

Definition fallback_instruction : string :=
  "You are StreekX. The live search tool is temporarily unavailable. Provide a helpful response based on your training data. Briefly mention that this is an offline response.".

(** [const notice] of the fallback branch. *)
Definition notice : string :=
  LF +:+ "(Live search unavailable. Using offline knowledge.)" +:+ LF +:+ LF.

(** [const errorMsg] of the inner catch. *)
Definition errorMsg : string :=
  LF +:+ LF +:+
  "(Error: Unable to connect to AI service. Please check your connection.)" +:+ LF.

Definition warn_label : string := "Gemini Search/Chat Error:".

(** Lines 20-39: look the session up, create and store it when absent. *)
Definition get_chat (sessionId : string) : M Chat :=
  found <- sessions_get sessionId ;;
  match found with
  | Some chat => ret chat
  | None =>
      chat <- chats_create chat_model chat_config ;;
      sessions_set sessionId chat ;;;
      ret chat
  end.

(** Lines 50-54, shared by both loops: [if (text) { fullText += text;
    onChunk(text); }]. *)
Definition take_text (onChunk : Callback) (chunk : Chunk) (fullText : string) : M string :=
  match text chunk with
  | Some t =>
      if truthy_string t then
        call onChunk t ;;; ret (fullText +:+ t)
      else ret fullText
  | None => ret fullText
  end.

(** Lines 49-68: the loop over the grounded stream, with the two local
    variables [fullText] and [sources]. *)
Fixpoint primary_loop (onChunk : Callback) (responseStream : Stream)
    (fullText : string) (sources : list SearchSource)
    : M (string * list SearchSource) :=
  match responseStream with
  | SDone => ret (fullText, sources)
  | SThrow e => throw e
  | SYield chunk rest =>
      fullText' <- take_text onChunk chunk fullText ;;
      primary_loop onChunk rest fullText' (sources ++ extract chunk)
  end.

(** Lines 101-107: the loop over the fallback stream. *)
Fixpoint fallback_loop (onChunk : Callback) (fallbackStream : Stream)
    (fullText : string) : M string :=
  match fallbackStream with
  | SDone => ret fullText
  | SThrow e => throw e
  | SYield chunk rest =>
      fullText' <- take_text onChunk chunk fullText ;;
      fallback_loop onChunk rest fullText'
  end.

(** Lines 20-79: the body of the outer [try]. *)
Definition primary (P : Provider) (prompt sessionId : string) (onChunk : Callback)
    : M GenerationResult :=
  chat <- get_chat sessionId ;;
  responseStream <- send P chat prompt ;;
  acc <- primary_loop onChunk responseStream EmptyString [] ;;
  ret {| result_text := acc.1; sources := uniqueSources acc.2 |}.

(** Lines 87-108: the body of the inner [try]. *)
Definition fallback (P : Provider) (prompt : string) (onChunk : Callback)
    : M GenerationResult :=
  fallbackStream <- models_generate P fallbackModel prompt fallback_instruction ;;
  call onChunk notice ;;;
  fullText <- fallback_loop onChunk fallbackStream (EmptyString +:+ notice) ;;
  ret {| result_text := fullText; sources := [] |}.

(** Lines 111-113: the inner [catch]. *)
Definition terminal (onChunk : Callback) : M GenerationResult :=
  call onChunk errorMsg ;;;
  ret {| result_text := errorMsg; sources := [] |}.

Definition generateSearchResponse (P : Provider) (prompt sessionId : string)
    (onChunk : Callback) : M GenerationResult :=
  try_catch (primary P prompt sessionId onChunk)
    (λ error,
       console_warn warn_label error ;;;
       try_catch (fallback P prompt onChunk) (λ _, terminal onChunk)).

(** *** Vocabulary for the statements *)

(** A callback that returns on every increment. *)
Definition total (onChunk : Callback) : Prop := ∀ t, onChunk t = Returned tt.

(** The chunks a stream yields before it ends or throws. *)
Fixpoint stream_chunks (s : Stream) : list Chunk :=
  match s with
  | SYield chunk rest => chunk :: stream_chunks rest
  | _ => []
  end.

(** The error a stream throws, [None] when it ends normally. *)
Fixpoint stream_error (s : Stream) : option Error :=
  match s with
  | SDone => None
  | SThrow e => Some e
  | SYield _ rest => stream_error rest
  end.

(** The error that makes a request fail: the call itself throws, or the
    stream throws while it is consumed; [None] when the request succeeds. *)
Definition failure (o : outcome Stream) : option Error :=
  match o with
  | Returned s => stream_error s
  | Threw e => Some e
  end.

(** The chunks received from a request, up to its failure if it fails. *)
Definition received (o : outcome Stream) : list Chunk :=
  match o with
  | Returned s => stream_chunks s
  | Threw _ => []
  end.

(** The text increment of a text-bearing chunk. *)
Definition increment (chunk : Chunk) : option string :=
  match text chunk with
  | Some t => if truthy_string t then Some t else None
  | None => None
  end.

Definition increments (chunks : list Chunk) : list string := omap increment chunks.

(** JavaScript's [+=] over a list of increments. *)
Definition concat_text (l : list string) : string :=
  foldr String.append EmptyString l.

(** The three results of lines 20-39 in state [st]: the session handed
    out, the state afterwards and the calls made. *)
Definition session_for (st : State) (sessionId : string) : Chat :=
  match chatSessions st !! sessionId with
  | Some chat => chat
  | None => {| chat_ref := created st |}
  end.

Definition registered (st : State) (sessionId : string) : State :=
  match chatSessions st !! sessionId with
  | Some _ => st
  | None =>
      {| chatSessions := <[sessionId := {| chat_ref := created st |}]> (chatSessions st);
         created := S (created st) |}
  end.

Definition registration (st : State) (sessionId : string) : list Event :=
  match chatSessions st !! sessionId with
  | Some _ => []
  | None =>
      [ EvCreate {| chat_ref := created st |} chat_model chat_config;
        EvSet sessionId {| chat_ref := created st |} ]
  end.

(** The increments passed to [onChunk], read off a list of events. *)
Definition delivered (evs : list Event) : list string :=
  omap (λ e, match e with EvChunk t => Some t | _ => None end) evs.

(** The requests sent to the provider, read off a list of events. *)
Definition requests (evs : list Event) : list Event :=
  omap (λ e, match e with
             | EvSend _ _ | EvGenerate _ _ _ => Some e
             | _ => None
             end) evs.

(** The stream that yields the given chunks and then ends. *)
Fixpoint stream_of (chunks : list Chunk) : Stream :=
  match chunks with
  | [] => SDone
  | chunk :: rest => SYield chunk (stream_of rest)
  end.

(** The text of a chunk, the empty string when it has none. *)
Definition text_or_empty (chunk : Chunk) : string :=
  match text chunk with
  | Some t => t
  | None => EmptyString
  end.

(** The sentence the specification quotes for the disclosure notice. *)
Definition disclosure_sentence : string :=
  "Live search unavailable. Using offline knowledge.".

(** *** Sequences of calls *)

(** [calls st st']: the module goes from state [st] to state [st'] by
    finitely many calls of the service, whatever their arguments, the
    provider's answers and the callbacks. *)
Inductive calls : State → State → Prop :=
  | calls_refl st : calls st st
  | calls_step st st' P prompt sessionId onChunk :
      calls st st' →
      calls st (state_of (generateSearchResponse P prompt sessionId onChunk st')).

(** The states of a process: the module starts with an empty map. *)
Definition reachable (st : State) : Prop := calls initial_state st.

(** The invariant of the registry: the objects it holds have been
    created, no object sits under two identifiers, and there are as many
    identifiers as objects created. *)
Record registry_ok (st : State) : Prop := {
  ok_created : ∀ sid chat, chatSessions st !! sid = Some chat → chat_ref chat < created st;
  ok_distinct : ∀ sid1 sid2 chat,
    chatSessions st !! sid1 = Some chat → chatSessions st !! sid2 = Some chat → sid1 = sid2;
  ok_size : size (chatSessions st) = created st
}.

(** The reading of "the web value, or the placeholder when the value is
    absent" that substitutes for [undefined] only. *)
Definition placeholder_if_absent (v : option string) (d : string) : string :=
  default d v.

(** ** Concrete inputs *)

Definition text_chunk (t : string) : Chunk := {| text := Some t; candidates := None |}.

(** A chunk with grounding entries only. *)
Definition grounding_chunk (gcs : list GroundingChunk) : Chunk :=
  {| text := None;
     candidates := Some [ {| groundingMetadata := Some {| groundingChunks := Some gcs |} |} ] |}.

Definition web_entry (t u : option string) : GroundingChunk :=
  {| web := Some {| web_title := t; web_uri := u |} |}.

Definition always_returns : Callback := λ _, Returned tt.

(** A callback that throws on every increment. *)
Definition always_throws : Callback := λ _, Threw {| message := "callback failed" |}.

Definition network_error : Error := {| message := "fetch failed" |}.

(** The grounded request streams [Hel], [lo], [ world]. *)
Definition hello_provider : Provider :=
  {| sendMessageStream := λ _ _,
       Returned (stream_of [text_chunk "Hel"; text_chunk "lo"; text_chunk " world"]);
     generateContentStream := λ _ _ _, Threw network_error |}.

(** The grounded request is refused; the fallback request streams one
    chunk. *)
Definition offline_provider : Provider :=
  {| sendMessageStream := λ _ _, Threw network_error;
     generateContentStream := λ _ _ _, Returned (stream_of [text_chunk "Offline answer"]) |}.

(** The grounded stream breaks after one chunk and the fallback request
    is refused. *)
Definition down_provider : Provider :=
  {| sendMessageStream := λ _ _, Returned (SYield (text_chunk "Par") (SThrow network_error));
     generateContentStream := λ _ _ _, Threw network_error |}.

(** The module state after a first call whose two requests fail. *)
Definition after_first_call : State :=
  state_of (generateSearchResponse down_provider "q" "s1" always_returns initial_state).

(** ** The edge function (supabase/functions/search/index.ts) *)

(** *** JSON values *)

(** What [JSON.parse] returns.  A JavaScript value that may also be
    [undefined] is an [option json], with [None] for [undefined]. *)
Inductive json :=
  | JNull
  | JBool (b : bool)
  | JNum (x : float)
  | JStr (s : string)
  | JArr (items : list json)
  | JObj (fields : list (string * json)).

(** [if (v)]: [undefined], [null], [false], [0], [-0], [NaN] and the
    empty string are falsy, everything else is truthy. *)
Definition js_truthy (v : option json) : bool :=
  match v with
  | None => false
  | Some JNull => false
  | Some (JBool b) => b
  | Some (JNum x) => negb (PrimFloat.eqb x 0%float || negb (PrimFloat.eqb x x))
  | Some (JStr s) => truthy_string s
  | Some (JArr _) => true
  | Some (JObj _) => true
  end.

(** [a || b]. *)
Definition js_or (a b : option json) : option json := if js_truthy a then a else b.

(** The value of a key in the fields of an object; when a key occurs
    twice the later occurrence wins, as in [JSON.parse]. *)
Fixpoint field (name : string) (fields : list (string * json)) : option json :=
  match fields with
  | [] => None
  | (k, v) :: rest =>
      match field name rest with
      | Some v' => Some v'
      | None => if String.eqb k name then Some v else None
      end
  end.

(** [j.name] for a value that is neither [null] nor [undefined].  None of
    the names the handler reads ([query], [error], [message],
    [candidates], [content], [parts], [text], [groundingMetadata]) is
    defined on arrays or on the wrappers of primitives. *)
Definition property (name : string) (j : json) : option json :=
  match j with
  | JObj fields => field name fields
  | _ => None
  end.

(** [j[0]] for a value that is neither [null] nor [undefined]. *)
Definition first (j : json) : option json :=
  match j with
  | JArr items => head items
  | JObj fields => field "0" fields
  | JStr (String c _) => Some (JStr (String c EmptyString))
  | _ => None
  end.

(** [v?.name] and [v?.[0]]. *)
Definition opt_property (name : string) (v : option json) : option json :=
  match v with
  | None | Some JNull => None
  | Some j => property name j
  end.

Definition opt_first (v : option json) : option json :=
  match v with
  | None | Some JNull => None
  | Some j => first j
  end.

(** *** The runtime *)

Record FetchResponse := { ok : bool; response_json : outcome json }.

(** What the handler asks of its environment: the environment variable,
    the network, and two pieces of the JavaScript engine, namely the
    [TypeError] raised by reading a property of [null] and the
    conversion of a number to a string. *)
Record Runtime := {
  env_get : string → outcome (option string);
  fetch : string → json → outcome FetchResponse;
  null_access : string → Error;
  number_to_string : float → string
}.

(** [v.name], which throws on [null] and [undefined]. *)
Definition get_property (rt : Runtime) (name : string) (v : option json)
    : outcome (option json) :=
  match v with
  | None | Some JNull => Threw (null_access rt name)
  | Some j => Returned (property name j)
  end.

(** [String(v)], as [new Error(v)] applies it to its argument. *)
Fixpoint js_to_string (rt : Runtime) (j : json) : string :=
  match j with
  | JNull => "null"
  | JBool true => "true"
  | JBool false => "false"
  | JNum x => number_to_string rt x
  | JStr s => s
  | JArr items =>
      String.concat ","
        (map (λ item, match item with
                      | JNull => EmptyString
                      | _ => js_to_string rt item
                      end) items)
  | JObj _ => "[object Object]"
  end.

(** [new Error(v)] for a value [v] that may be [undefined]. *)
Definition new_Error (rt : Runtime) (v : option json) : Error :=
  {| message := match v with
                | Some j => js_to_string rt j
                | None => EmptyString
                end |}.

(** *** Requests and responses *)

(** A request: its method and what [await req.json()] gives. *)
Record Request := { method : string; req_json : outcome json }.

Inductive Body :=
  | TextBody (s : string)
  | JsonBody (j : json).  (* JSON.stringify(j) *)

Record Response := {
  status : nat;
  headers : list (string * string);
  body : Body
}.

Definition corsHeaders : list (string * string) :=
  [ ("Access-Control-Allow-Origin", "*");
    ("Access-Control-Allow-Headers", "authorization, x-client-info, apikey, content-type") ].

Definition json_headers : list (string * string) :=
  corsHeaders ++ [ ("Content-Type", "application/json") ].

(** *** The handler *)

Definition and_then {A B} (o : outcome A) (k : A → outcome B) : outcome B :=
  match o with
  | Returned a => k a
  | Threw e => Threw e
  end.

Definition catch {A} (o : outcome A) (h : Error → outcome A) : outcome A :=
  match o with
  | Returned a => Returned a
  | Threw e => h e
  end.

Declare Scope outcome_scope.
Delimit Scope outcome_scope with outcome.
Notation "x <~ o ;; k" := (and_then o (λ x, k))
  (at level 100, o at next level, right associativity) : outcome_scope.

Definition missing_query : string := "Missing 'query' in request body".

Definition missing_key : string := "Server Misconfiguration: GEMINI_API_KEY is missing".

Definition provider_failed : string := "Failed to generate content from Gemini".

Definition no_answer : string :=
  "I couldn't generate an answer based on the search results.".

Definition proxy_instruction : string :=
  "You are a professional AI search engine. Provide a detailed, factual answer based on the search results. Use markdown for formatting and include numbered citations like [1], [2] next to the facts.".

Definition apiUrl (geminiApiKey : string) : string :=
  "https://generativelanguage.googleapis.com/v1beta/models/gemini-3-flash-preview:generateContent?key="
  +:+ geminiApiKey.

(** An object literal with one key; [JSON.stringify] drops a key whose
    value is [undefined]. *)
Definition singleton_object (key : string) (v : option json) : json :=
  JObj match v with
       | Some j => [(key, j)]
       | None => []
       end.

(** Lines 34-54. *)
Definition payload (query : option json) : json :=
  JObj [ ("contents", JArr [ JObj [ ("parts", JArr [ singleton_object "text" query ]) ] ]);
         ("tools", JArr [ JObj [ ("google_search", JObj []) ] ]);
         ("system_instruction",
          JObj [ ("parts", JArr [ JObj [ ("text", JStr proxy_instruction) ] ]) ]) ].

(** Line 73: [candidate?.content?.parts?.[0]?.text]. *)
Definition text_of (candidate : option json) : option json :=
  opt_property "text" (opt_first (opt_property "parts" (opt_property "content" candidate))).

(** Line 73: [... || "I couldn't generate an answer ..."]. *)
Definition answer_of (candidate : option json) : option json :=
  js_or (text_of candidate) (Some (JStr no_answer)).

(** Line 76: [candidate?.groundingMetadata || null]. *)
Definition groundingMetadata_of (candidate : option json) : option json :=
  js_or (opt_property "groundingMetadata" candidate) (Some JNull).

(** Line 68: [data.error?.message || "Failed to ..."]. *)
Definition provider_message (rt : Runtime) (data : json) : outcome (option json) :=
  (error <~ get_property rt "error" (Some data) ;;
   Returned (js_or (opt_property "message" error) (Some (JStr provider_failed))))%outcome.

(** An object literal with the two keys [answer] and [groundingMetadata]. *)
Definition answer_object (answer groundingMetadata : option json) : json :=
  JObj (match answer with Some a => [("answer", a)] | None => [] end
        ++ match groundingMetadata with
           | Some g => [("groundingMetadata", g)]
           | None => []
           end).

Definition ok_response (answer groundingMetadata : option json) : Response :=
  {| status := 200; headers := json_headers;
     body := JsonBody (answer_object answer groundingMetadata) |}.

Definition error_response (error : Error) : Response :=
  {| status := 500; headers := json_headers;
     body := JsonBody (JObj [ ("error", JStr (message error)) ]) |}.

(** Lines 18-87: the body of the [try]. *)
Definition handle (rt : Runtime) (req : Request) : outcome Response :=
  (parsed <~ req_json req ;;
   query <~ get_property rt "query" (Some parsed) ;;
   if negb (js_truthy query) then Threw {| message := missing_query |} else
   geminiApiKey <~ env_get rt "GEMINI_API_KEY" ;;
   if negb (truthy geminiApiKey) then Threw {| message := missing_key |} else
   geminiResponse <~ fetch rt (apiUrl (default EmptyString geminiApiKey)) (payload query) ;;
   data <~ response_json geminiResponse ;;
   if negb (ok geminiResponse) then
     (msg <~ provider_message rt data ;; Threw (new_Error rt msg))
   else
   candidates <~ get_property rt "candidates" (Some data) ;;
   let candidate := opt_first candidates in
   Returned (ok_response (answer_of candidate) (groundingMetadata_of candidate)))%outcome.

(** Lines 11-98: the function passed to [serve]. *)
Definition serve (rt : Runtime) (req : Request) : outcome Response :=
  if String.eqb (method req) "OPTIONS" then
    Returned {| status := 200; headers := corsHeaders; body := TextBody "ok" |}
  else
    catch (handle rt req) (λ error, Returned (error_response error)).

(** *** Concrete inputs *)

Definition demo_runtime (answer : outcome FetchResponse) : Runtime :=
  {| env_get := λ name,
       Returned (if String.eqb name "GEMINI_API_KEY" then Some "secret" else None);
     fetch := λ _ _, answer;
     null_access := λ name, {| message := "Cannot read properties of null" |};
     number_to_string := λ _, "0" |}.

Definition post (parsed : json) : Request :=
  {| method := "POST"; req_json := Returned parsed |}.

(** A provider answer with one candidate whose first part has the given
    fields. *)
Definition provider_data (part : list (string * json)) : json :=
  JObj [ ("candidates",
          JArr [ JObj [ ("content", JObj [ ("parts", JArr [ JObj part ]) ]);
                        ("groundingMetadata", JObj [ ("webSearchQueries", JArr []) ]) ] ]) ].

(** ** The caller's view of a call (App.tsx, lines 726-747) *)

(** The callback [handleSearch] passes accumulates the increments it
    receives, [currentText += chunk], and shows the accumulated text. *)
Definition accumulated (evs : list Event) : string := concat_text (delivered evs).

(** The errors passed to [console.warn], read off a list of events. *)
Definition warnings (evs : list Event) : list Error :=
  omap (λ e, match e with EvWarn _ error => Some error | _ => None end) evs.

(** The grounded stream breaks after its chunks, and the callback throws
    on one increment only. *)
Definition throws_on (bad : string) : Callback :=
  λ t, if String.eqb t bad then Threw {| message := "callback failed" |} else Returned tt.

(** The grounded request streams a text and then two web entries, the
    second without title and URI. *)
Definition sourced_provider : Provider :=
  {| sendMessageStream := λ _ _,
       Returned (stream_of [ text_chunk "A";
                             grounding_chunk [ web_entry (Some "T") (Some "u1");
                                               web_entry None None ] ]);
     generateContentStream := λ _ _ _, Threw network_error |}.

(** ** The edge function without its network *)

(** The runtime [rt] with another network. *)
Definition with_fetch (rt : Runtime) (f : string → json → outcome FetchResponse) : Runtime :=
  {| env_get := env_get rt; fetch := f;
     null_access := null_access rt; number_to_string := number_to_string rt |}.

(** ** hashPassword (App.tsx, lines 12-17) *)

(** The digit of a value below sixteen in [Number.prototype.toString(16)]. *)
Definition hex_digit (d : N) : ascii :=
  match d with
  | 0%N => "0" | 1%N => "1" | 2%N => "2" | 3%N => "3"
  | 4%N => "4" | 5%N => "5" | 6%N => "6" | 7%N => "7"
  | 8%N => "8" | 9%N => "9" | 10%N => "a" | 11%N => "b"
  | 12%N => "c" | 13%N => "d" | 14%N => "e" | _ => "f"
  end%char.

(** [b.toString(16)] for an element [b] of a [Uint8Array]: one digit
    below sixteen, two digits from sixteen on, no leading zero. *)
Definition byte_toString16 (b : Byte.byte) : string :=
  let n := Byte.to_N b in
  if (n <? 16)%N then String (hex_digit n) EmptyString
  else String (hex_digit (n / 16)) (String (hex_digit (n mod 16)) EmptyString).

(** The first [n] characters of [filler] repeated; [rest] is what is
    left of the current copy. *)
Fixpoint fill (n : nat) (filler rest : string) : string :=
  match n with
  | 0 => EmptyString
  | S n' =>
      match rest with
      | String c r => String c (fill n' filler r)
      | EmptyString =>
          match filler with
          | String c r => String c (fill n' filler r)
          | EmptyString => EmptyString
          end
      end
  end.

(** [s.padStart(targetLength, filler)]. *)
Definition padStart (s : string) (targetLength : nat) (filler : string) : string :=
  if targetLength <=? String.length s then s
  else fill (targetLength - String.length s) filler filler +:+ s.

(** [hashArray.map(b => b.toString(16).padStart(2, '0')).join('')]. *)
Definition hex (hashArray : list Byte.byte) : string :=
  concat_text (map (λ b, padStart (byte_toString16 b) 2 "0") hashArray).

(** What the function asks of the browser: [new TextEncoder().encode]
    and [crypto.subtle.digest], whose promise may reject. *)
Record WebCrypto := {
  text_encode : string → list Byte.byte;
  subtle_digest : string → list Byte.byte → outcome (list Byte.byte)
}.

Definition hashPassword (W : WebCrypto) (password : string) : outcome string :=
  (hashBuffer <~ subtle_digest W "SHA-256" (text_encode W password) ;;
   Returned (hex hashBuffer))%outcome.

(** The characters of lower-case hexadecimal notation. *)
Definition is_hex_char (c : ascii) : bool :=
  let n := N_of_ascii c in
  ((48 <=? n) && (n <=? 57) || (97 <=? n) && (n <=? 102))%N.

(** The value of a hexadecimal digit, and the byte of two digits. *)
Definition hex_value (c : ascii) : option N :=
  let n := N_of_ascii c in
  if ((48 <=? n) && (n <=? 57))%N then Some (n - 48)%N
  else if ((97 <=? n) && (n <=? 102))%N then Some (n - 87)%N
  else None.

(** Reading a string of hexadecimal digits back, two digits a byte. *)
Fixpoint unhex (s : string) : option (list Byte.byte) :=
  match s with
  | EmptyString => Some []
  | String c1 (String c2 rest) =>
      match hex_value c1, hex_value c2, unhex rest with
      | Some h, Some l, Some bytes =>
          match Byte.of_N (16 * h + l) with
          | Some b => Some (b :: bytes)
          | None => None
          end
      | _, _, _ => None
      end
  | String _ EmptyString => None
  end.

(** The check that the two characters of a byte are hexadecimal digits
    that give the byte back. *)
Definition hex_digits_ok (b : Byte.byte) : bool :=
  match padStart (byte_toString16 b) 2 "0" with
  | String c1 (String c2 EmptyString) =>
      is_hex_char c1 && is_hex_char c2
      && match hex_value c1, hex_value c2 with
         | Some h, Some l =>
             match Byte.of_N (16 * h + l) with
             | Some b' => Byte.eqb b' b
             | None => false
             end
         | _, _ => false
         end
  | _ => false
  end.

(** A digest function for the examples: it returns its input padded or
    cut to thirty-two bytes. *)
Definition demo_crypto : WebCrypto :=
  {| text_encode := λ s, map byte_of_ascii (list_ascii_of_string s);
     subtle_digest := λ _ data, Returned (take 32 (data ++ replicate 32 Byte.x00)) |}.

(** ** The search handler of the application (App.tsx, lines 692-756) *)

Module App.

(** [ChatMessage['role']] and [ViewState] of types.ts. *)
Inductive Role := user | model.

Inductive ViewState := home | search | profile | history | workspace | preferences | account.

(** [interface ChatMessage]: [sources] and [isStreaming] are optional. *)
Record ChatMessage := {
  role : Role;
  content : string;
  msg_sources : option (list SearchSource);
  isStreaming : option bool
}.

(** The state variables of the component that the handler reads or sets. *)
Record AppState := {
  query : string;
  currentView : ViewState;
  messages : list ChatMessage;
  isLoading : bool;
  userMenuOpen : bool;
  sessionId : string;
  isLoggedIn : bool;
  currentUserId : option string
}.

(** What the handler asks of the browser: [String.prototype.trim],
    [crypto.randomUUID()] when the function exists, and
    [Date.now().toString()]. *)
Record Browser := {
  trim : string → string;
  randomUUID : option string;
  now : string
}.

(** What the handler does besides setting state: the calls of the
    service, the row it inserts into [messages], [console.error], and
    the [TypeError] of an updater that reads the role of a message that
    is not there. *)
Inductive AppEvent :=
  | Service (e : Event)
  | InsertMessage (user_id content role session_id : string)
  | ConsoleError (e : Error)
  | UpdaterTypeError.

(** Lines 729-736 and 739-747: an updater copies the list and changes
    its last message when that is a message of the model. *)
Definition update_last (change : ChatMessage → ChatMessage) (prev : list ChatMessage)
    : option (list ChatMessage) :=
  match last prev with
  | None => None
  | Some lastMsg =>
      Some (match role lastMsg with
            | model => take (length prev - 1) prev ++ [change lastMsg]
            | user => prev
            end)
  end.

(** [setMessages(updater)]. *)
Definition setMessages (updater : list ChatMessage → option (list ChatMessage))
    (run : list ChatMessage * list AppEvent) : list ChatMessage * list AppEvent :=
  match updater run.1 with
  | Some msgs => (msgs, run.2)
  | None => (run.1, run.2 ++ [UpdaterTypeError])
  end.

(** Lines 730-734: [lastMsg.content = currentText]. *)
Definition show_text (currentText : string) (m : ChatMessage) : ChatMessage :=
  {| role := role m; content := currentText;
     msg_sources := msg_sources m; isStreaming := isStreaming m |}.

(** Lines 742-746. *)
Definition show_result (result : GenerationResult) (m : ChatMessage) : ChatMessage :=
  {| role := role m; content := result_text result;
     msg_sources := Some (sources result); isStreaming := Some false |}.

(** Lines 727-737: the callback adds the chunk to [currentText] and
    queues an updater; it returns. *)
Definition onChunk : Callback := λ _, Returned tt.

(** The updaters the callback has queued, applied in order: [currentText]
    grows by one increment before each. *)
Fixpoint stream_updates (currentText : string) (chunks : list string)
    (run : list ChatMessage * list AppEvent) : list ChatMessage * list AppEvent :=
  match chunks with
  | [] => run
  | chunk :: rest =>
      let currentText' := currentText +:+ chunk in
      stream_updates currentText' rest (setMessages (update_last (show_text currentText')) run)
  end.

Definition userMsg (searchQuery : string) : ChatMessage :=
  {| role := user; content := searchQuery; msg_sources := None; isStreaming := None |}.

Definition aiPlaceholder : ChatMessage :=
  {| role := model; content := EmptyString; msg_sources := None; isStreaming := Some true |}.

(** Line 699. *)
Definition newId (B : Browser) : string :=
  match randomUUID B with
  | Some uuid => uuid
  | None => now B
  end.

(** Line 693: [overrideQuery || query]. *)
Definition searchQuery_of (overrideQuery : option string) (app : AppState) : string :=
  or_default overrideQuery (query app).

(** Lines 696-709: the session of the request and the messages shown. *)
Definition activeSessionId_of (B : Browser) (app : AppState) : string :=
  match currentView app with
  | home => newId B
  | _ => sessionId app
  end.

Definition opening_messages (searchQuery : string) (app : AppState) : list ChatMessage :=
  match currentView app with
  | home => [userMsg searchQuery; aiPlaceholder]
  | _ => messages app ++ [userMsg searchQuery; aiPlaceholder]
  end.

(** Lines 715-723. *)
Definition insert_message (searchQuery activeSessionId : string) (app : AppState)
    : list AppEvent :=
  match currentUserId app with
  | Some uid =>
      if isLoggedIn app && truthy_string uid
      then [InsertMessage uid searchQuery "user" activeSessionId]
      else []
  | None => []
  end.

Definition handleSearch (B : Browser) (P : Provider) (overrideQuery : option string)
    (app : AppState) (st : State) : AppState * State * list AppEvent :=
  let searchQuery := searchQuery_of overrideQuery app in
  if negb (truthy_string (trim B searchQuery)) || isLoading app then (app, st, [])
  else
    let activeSessionId := activeSessionId_of B app in
    let inserted := insert_message searchQuery activeSessionId app in
    let '(out, st', evs) :=
      generateSearchResponse P searchQuery activeSessionId onChunk st in
    let streamed :=
      stream_updates EmptyString (delivered evs)
        (opening_messages searchQuery app, inserted ++ (Service <$> evs)) in
    let finished :=
      match out with
      | Returned result => setMessages (update_last (show_result result)) streamed
      | Threw e => (streamed.1, streamed.2 ++ [ConsoleError e])
      end in
    ({| query := EmptyString;
        currentView := search;
        messages := finished.1;
        isLoading := false;
        userMenuOpen := false;
        sessionId := activeSessionId;
        isLoggedIn := isLoggedIn app;
        currentUserId := currentUserId app |},
     st', finished.2).

(** The message that stands last when a search is over. *)
Definition answer_message (result : GenerationResult) : ChatMessage :=
  {| role := model; content := result_text result;
     msg_sources := Some (sources result); isStreaming := Some false |}.

(** A browser for the examples. *)
Definition demo_browser : Browser :=
  {| trim := λ s, if String.eqb s " " then EmptyString else s;
     randomUUID := Some "uuid-1";
     now := "1700000000000" |}.

Definition fresh_app : AppState :=
  {| query := "what is rocq"; currentView := home; messages := []; isLoading := false;
     userMenuOpen := false; sessionId := "uuid-0"; isLoggedIn := false;
     currentUserId := None |}.

End App.

(** ** The sign-in form (App.tsx, lines 223-304) *)

Module Auth.

Inductive Mode := login | signup.

(** The fields of [formData]. *)
Record FormData := {
  name : string;
  streekxId : string;
  password : string;
  gender : string;
  dob : string;
  phone : string
}.

(** The error object of the data store and the row it returns; the
    handler reads [code] and [message] of the one, [id] of the other. *)
Record PostgrestError := { code : string; pg_message : string }.

Record UserRow := { id : string }.

(** [{ data, error }]. *)
Record Answer := { data : option UserRow; error : option PostgrestError }.

(** The row of [insert([{...}])]. *)
Record NewUser := {
  streekx_id : string;
  password_hash : string;
  full_name : string;
  avatar_url : string;
  new_phone : string;
  new_gender : string;
  new_dob : string;
  bio : string
}.

(** What the handler asks of its environment: the string functions of
    the engine ([length], [trim], [toLowerCase], [replace(/\s/g, '')],
    [encodeURIComponent], which throws on a lone surrogate), the
    browser's digest, the two queries of the data store, and
    [localStorage.setItem], which may throw. *)
Record Env := {
  js_length : string → nat;
  trim : string → string;
  toLowerCase : string → string;
  remove_whitespace : string → string;
  encodeURIComponent : string → outcome string;
  crypto : WebCrypto;
  insert_user : NewUser → Answer;
  select_user : string → string → Answer;
  setItem : string → string → outcome unit
}.

(** The state variables the handler sets. *)
Record FormState := { loading : bool; error_shown : string; success : string }.

Inductive AuthEvent :=
  | InsertUser (row : NewUser)
  | SelectUser (streekx_id password_hash : string)
  | SetItem (key value : string)
  | SetTimeout (ms : nat)   (* setTimeout(onComplete, ms) *)
  | ConsoleError (label : string).

(** A computation sets state variables, makes calls, and returns or
    throws. *)
Definition F (A : Type) : Type :=
  FormState * list AuthEvent → outcome A * (FormState * list AuthEvent).

Definition ret {A} (a : A) : F A := λ s, (Returned a, s).

Definition throw {A} (e : Error) : F A := λ s, (Threw e, s).

Definition bind {A B} (m : F A) (k : A → F B) : F B :=
  λ s,
    match m s with
    | (Returned a, s1) => k a s1
    | (Threw e, s1) => (Threw e, s1)
    end.

Definition lift {A} (o : outcome A) : F A := λ s, (o, s).

Definition emit (ev : AuthEvent) : F unit := λ s, (Returned tt, (s.1, s.2 ++ [ev])).

Definition setLoading (b : bool) : F unit :=
  λ s, (Returned tt,
        ({| loading := b; error_shown := error_shown s.1; success := success s.1 |}, s.2)).

Definition setError (msg : string) : F unit :=
  λ s, (Returned tt,
        ({| loading := loading s.1; error_shown := msg; success := success s.1 |}, s.2)).

Definition setSuccess (msg : string) : F unit :=
  λ s, (Returned tt,
        ({| loading := loading s.1; error_shown := error_shown s.1; success := msg |}, s.2)).

Declare Scope auth_scope.
Delimit Scope auth_scope with auth.
Notation "x <- m ;; k" := (bind m (λ x, k))
  (at level 100, m at next level, right associativity) : auth_scope.
Notation "m ;;; k" := (bind m (λ _, k))
  (at level 100, right associativity) : auth_scope.

Definition session_key : string := "streekx_session_id".

Definition id_too_short : string := "StreekX ID must be at least 3 characters.".

Definition password_too_short : string := "Password must be at least 6 characters.".

Definition id_taken : string := "This StreekX ID is already taken. Please login instead.".

Definition connection_error : string := "Connection error. Please try again.".

Definition invalid_credentials : string := "Invalid StreekX ID or Password.".

Definition authentication_failed : string := "Authentication failed.".

(** Line 230. *)
Definition displayStreekxId (E : Env) (formData : FormData) : string :=
  remove_whitespace E (toLowerCase E (trim E (streekxId formData))).

(** Line 250. *)
Definition avatarUrl (encoded : string) : string :=
  "https://ui-avatars.com/api/?name=" +:+ encoded +:+ "&background=D4FF5B&color=0F0F0F".

(** [localStorage.setItem(key, value)]. *)
Definition storage_set (E : Env) (key value : string) : F unit :=
  (emit (SetItem key value) ;;; lift (setItem E key value))%auth.

(** Lines 246-296: the body of the [try]. *)
Definition attempt (E : Env) (mode : Mode) (formData : FormData) : F unit :=
  (hashedPassword <- lift (hashPassword (crypto E) (password formData)) ;;
   match mode with
   | signup =>
       encoded <- lift (encodeURIComponent E (name formData)) ;;
       let row :=
         {| streekx_id := displayStreekxId E formData;
            password_hash := hashedPassword;
            full_name := name formData;
            avatar_url := avatarUrl encoded;
            new_phone := phone formData;
            new_gender := gender formData;
            new_dob := dob formData;
            bio := "New StreekX Explorer" |} in
       emit (InsertUser row) ;;;
       let answer := insert_user E row in
       match error answer with
       | Some insertError =>
           if String.eqb (code insertError) "23505" then
             setError id_taken ;;; setLoading false
           else throw {| message := pg_message insertError |}
       | None =>
           match data answer with
           | Some row =>
               storage_set E session_key (id row) ;;;
               setSuccess "Identity created successfully!" ;;;
               emit (SetTimeout 1000)
           | None => ret tt
           end
       end
   | login =>
       emit (SelectUser (displayStreekxId E formData) hashedPassword) ;;;
       let answer := select_user E (displayStreekxId E formData) hashedPassword in
       match error answer with
       | Some fetchError =>
           emit (ConsoleError "Supabase Login Error:") ;;;
           throw {| message := connection_error |}
       | None =>
           match data answer with
           | None => throw {| message := invalid_credentials |}
           | Some row =>
               storage_set E session_key (id row) ;;;
               setSuccess "Access Granted." ;;;
               emit (SetTimeout 800)
           end
       end
   end)%auth.

(** Lines 297-302: [catch] and [finally]. *)
Definition settle (r : outcome unit * (FormState * list AuthEvent))
    : FormState * list AuthEvent :=
  let caught :=
    match r.1 with
    | Returned _ => r.2
    | Threw err =>
        ({| loading := loading r.2.1;
            error_shown := or_default (Some (message err)) authentication_failed;
            success := success r.2.1 |},
         r.2.2 ++ [ConsoleError "Auth Error:"])
    end in
  ({| loading := false; error_shown := error_shown caught.1; success := success caught.1 |},
   caught.2).

Definition handleSubmit (E : Env) (mode : Mode) (formData : FormData)
    : FormState * list AuthEvent :=
  if js_length E (displayStreekxId E formData) <? 3 then
    ({| loading := false; error_shown := id_too_short; success := EmptyString |}, [])
  else if js_length E (password formData) <? 6 then
    ({| loading := false; error_shown := password_too_short; success := EmptyString |}, [])
  else
    settle (attempt E mode formData
              ({| loading := true; error_shown := EmptyString; success := EmptyString |}, [])).

(** An environment for the examples: the strings are taken as they are,
    and the data store knows one user. *)
Definition demo_env : Env :=
  {| js_length := String.length;
     trim := λ s, s;
     toLowerCase := λ s, s;
     remove_whitespace := λ s, s;
     encodeURIComponent := λ s, Returned s;
     crypto := demo_crypto;
     insert_user := λ _, {| data := None;
                            error := Some {| code := "23505"; pg_message := "duplicate key" |} |};
     select_user := λ sid _,
       {| data := if String.eqb sid "alice" then Some {| id := "user-1" |} else None;
          error := None |};
     setItem := λ _ _, Returned tt |}.

(** A data store whose insert returns neither a row nor an error. *)
Definition quiet_env : Env :=
  {| js_length := String.length;
     trim := λ s, s;
     toLowerCase := λ s, s;
     remove_whitespace := λ s, s;
     encodeURIComponent := λ s, Returned s;
     crypto := demo_crypto;
     insert_user := λ _, {| data := None; error := None |};
     select_user := λ _ _, {| data := None; error := None |};
     setItem := λ _ _, Returned tt |}.

Definition demo_form (sid pw : string) : FormData :=
  {| name := "Alice"; streekxId := sid; password := pw;
     gender := "f"; dob := "2000-01-01"; phone := "555" |}.

End Auth.

(** The ways a submission can end. *)
Inductive submission (E : Auth.Env) (mode : Auth.Mode) (formData : Auth.FormData)
    : Auth.FormState * list Auth.AuthEvent → Prop :=
  | rejected msg :
      msg ≠ EmptyString →
      submission E mode formData
        ({| Auth.loading := false; Auth.error_shown := msg;
            Auth.success := EmptyString |}, [])
  | failed msg evs :
      msg ≠ EmptyString →
      (∀ key value, Auth.SetItem key value ∈ evs →
         key = Auth.session_key ∧ Auth.setItem E key value ≠ Returned tt) →
      (∀ ms, Auth.SetTimeout ms ∉ evs) →
      (mode = Auth.login → ∀ row, Auth.InsertUser row ∉ evs) →
      (mode = Auth.signup → ∀ i h, Auth.SelectUser i h ∉ evs) →
      submission E mode formData
        ({| Auth.loading := false; Auth.error_shown := msg;
            Auth.success := EmptyString |}, evs)
  | silent row :
      mode = Auth.signup →
      Auth.error (Auth.insert_user E row) = None →
      Auth.data (Auth.insert_user E row) = None →
      submission E mode formData
        ({| Auth.loading := false; Auth.error_shown := EmptyString;
            Auth.success := EmptyString |}, [Auth.InsertUser row])
  | granted msg request user ms :
      msg ≠ EmptyString →
      Auth.setItem E Auth.session_key (Auth.id user) = Returned tt →
      match request with
      | Auth.InsertUser row =>
          mode = Auth.signup ∧ Auth.data (Auth.insert_user E row) = Some user
          ∧ Auth.error (Auth.insert_user E row) = None
      | Auth.SelectUser i h =>
          mode = Auth.login ∧ Auth.data (Auth.select_user E i h) = Some user
          ∧ Auth.error (Auth.select_user E i h) = None
      | _ => False
      end →
      submission E mode formData
        ({| Auth.loading := false; Auth.error_shown := EmptyString;
            Auth.success := msg |},
         [request; Auth.SetItem Auth.session_key (Auth.id user); Auth.SetTimeout ms]).


(** ** Changing the password (App.tsx, lines 657-676) *)

Module Account.

(** [passwordForm]. *)
Record PasswordForm := { new_password : string; confirm : string }.

(** The state variables the handler sets. *)
Record FormState := { isChangingPassword : bool; passwordForm : PasswordForm }.

(** What the handler asks of its environment: [length] of a string, the
    browser's digest, and the update of the data store, which answers
    with the message of an error or with none. *)
Record Env := {
  js_length : string → nat;
  crypto : WebCrypto;
  update_password : string → string → option string
}.

Inductive AccountEvent :=
  | Alert (msg : string)
  | UpdatePassword (user_id password_hash : string).

Definition mismatch : string := "Passwords do not match".

Definition too_short : string := "Password must be at least 6 characters".

Definition updated : string := "Password updated successfully!".

(** The handler has no [try]: a rejection of the digest is the
    rejection of the handler. *)
Definition handleChangePassword (E : Env) (currentUserId : option string) (s : FormState)
    : outcome (FormState * list AccountEvent) :=
  if negb (truthy currentUserId) then Returned (s, [])
  else if negb (String.eqb (new_password (passwordForm s)) (confirm (passwordForm s))) then
    Returned (s, [Alert mismatch])
  else if js_length E (new_password (passwordForm s)) <? 6 then
    Returned (s, [Alert too_short])
  else
    (hashedPassword <~ hashPassword (crypto E) (new_password (passwordForm s)) ;;
     let uid := default EmptyString currentUserId in
     match update_password E uid hashedPassword with
     | Some msg =>
         Returned (s, [ UpdatePassword uid hashedPassword;
                        Alert ("Error updating password: " +:+ msg) ])
     | None =>
         Returned ({| isChangingPassword := false;
                      passwordForm := {| new_password := EmptyString;
                                         confirm := EmptyString |} |},
                   [ UpdatePassword uid hashedPassword; Alert updated ])
     end)%outcome.

(** An environment for the examples. *)
Definition demo_env : Env :=
  {| js_length := String.length;
     crypto := demo_crypto;
     update_password := λ _ _, None |}.

Definition demo_state (a b : string) : FormState :=
  {| isChangingPassword := true;
     passwordForm := {| new_password := a; confirm := b |} |}.

End Account.

(** * Properties *)

(** ** The source mapper *)

Section source_mapper.
Implicit Types (l pre suf : list SearchSource) (s t : SearchSource).
Implicit Types (seen : list string) (u : string).

Lemma findIndex_from_range {A} (p : A → bool) (i : Z) (xs : list A) :
  existsb p xs = true →
  (i ≤ findIndex_from p i xs < i + Z.of_nat (length xs))%Z.
Proof.
  revert i. induction xs as [|x xs IH]; intros i; simpl; [done|].
  destruct (p x); simpl; [lia|].
  intros Hex. specialize (IH (i + 1)%Z Hex). lia.
Qed.

Lemma findIndex_from_app {A} (p : A → bool) (i : Z) (xs ys : list A) :
  findIndex_from p i (xs ++ ys)
  = if existsb p xs then findIndex_from p i xs
    else findIndex_from p (i + Z.of_nat (length xs)) ys.
Proof.
  revert i. induction xs as [|x xs IH]; intros i; simpl.
  - f_equal. lia.
  - destruct (p x); simpl; [done|].
    rewrite IH. destruct (existsb p xs); [done|]. f_equal. lia.
Qed.

Lemma existsb_same_uri s l :
  existsb (same_uri s) l = bool_decide (uri s ∈ uri <$> l).
Proof.
  induction l as [|t l IH]; simpl.
  - done.
  - rewrite IH. unfold same_uri.
    destruct (decide (uri t = uri s)) as [Heq|Hne].
    + rewrite (bool_decide_eq_true_2 _ Heq). simpl.
      symmetry. apply bool_decide_eq_true. rewrite Heq. set_solver.
    + rewrite (bool_decide_eq_false_2 _ Hne). simpl.
      apply bool_decide_ext. set_solver.
Qed.

(** The test of the filter callback at an entry [s] that sits right
    after the prefix [pre]: it passes exactly when no entry of the
    prefix has the URI of [s]. *)
Lemma first_index_test pre s suf :
  bool_decide (Z.of_nat (length pre) = findIndex (same_uri s) (pre ++ s :: suf))
  = negb (bool_decide (uri s ∈ uri <$> pre)).
Proof.
  unfold findIndex. rewrite findIndex_from_app.
  pose proof (existsb_same_uri s pre) as Hex.
  destruct (existsb (same_uri s) pre) eqn:Hpre.
  - rewrite <- Hex. simpl.
    apply bool_decide_eq_false.
    pose proof (findIndex_from_range (same_uri s) 0 pre Hpre). lia.
  - rewrite <- Hex. simpl.
    assert (same_uri s s = true) as -> by by apply bool_decide_eq_true.
    apply bool_decide_eq_true. lia.
Qed.

Lemma dedupe_seen_ext seen1 seen2 l :
  (∀ u, u ∈ seen1 ↔ u ∈ seen2) →
  dedupe_seen seen1 l = dedupe_seen seen2 l.
Proof.
  revert seen1 seen2. induction l as [|s l IH]; intros seen1 seen2 Heq; simpl; [done|].
  rewrite (bool_decide_ext _ _ (Heq (uri s))).
  destruct (bool_decide (uri s ∈ seen2)).
  - by apply IH.
  - f_equal. apply IH. set_solver.
Qed.

Lemma filter_from_dedupe pre suf :
  filter_from (λ source index self,
                 bool_decide (index = findIndex (same_uri source) self))
              (pre ++ suf) (Z.of_nat (length pre)) suf
  = dedupe_seen (uri <$> pre) suf.
Proof.
  revert pre. induction suf as [|s suf IH]; intros pre; simpl; [done|].
  rewrite first_index_test.
  specialize (IH (pre ++ [s])).
  rewrite <- app_assoc, length_app in IH. simpl in IH.
  replace (Z.of_nat (length pre + 1)) with (Z.of_nat (length pre) + 1)%Z in IH by lia.
  rewrite IH, fmap_app. simpl.
  destruct (bool_decide (uri s ∈ uri <$> pre)) eqn:Hin; simpl.
  - apply bool_decide_eq_true in Hin.
    apply dedupe_seen_ext. set_solver.
  - f_equal. apply dedupe_seen_ext. set_solver.
Qed.

(** The filter of the source is the deduplication of the specification. *)
Lemma uniqueSources_dedupe l : uniqueSources l = dedupe l.
Proof. exact (filter_from_dedupe [] l). Qed.

Lemma dedupe_seen_uris seen l u :
  u ∈ uri <$> dedupe_seen seen l ↔ u ∈ uri <$> l ∧ u ∉ seen.
Proof.
  revert seen. induction l as [|s l IH]; intros seen; cbn [dedupe_seen].
  - set_solver.
  - case_bool_decide as Hin.
    + rewrite IH, fmap_cons, elem_of_cons.
      split; [tauto|]. intros [[->|Hu] Hn]; tauto.
    + rewrite !fmap_cons, !elem_of_cons, IH, elem_of_cons.
      destruct (decide (u = uri s)) as [->|Hne]; tauto.
Qed.

Lemma dedupe_seen_NoDup seen l : NoDup (uri <$> dedupe_seen seen l).
Proof.
  revert seen. induction l as [|s l IH]; intros seen; cbn [dedupe_seen].
  - constructor.
  - case_bool_decide as Hin; [apply IH|].
    rewrite fmap_cons. constructor; [|apply IH].
    rewrite dedupe_seen_uris, elem_of_cons. tauto.
Qed.

Lemma dedupe_seen_sublist seen l : dedupe_seen seen l `sublist_of` l.
Proof.
  revert seen. induction l as [|s l IH]; intros seen; simpl; [done|].
  case_bool_decide.
  - by apply sublist_cons.
  - by apply sublist_skip.
Qed.

(** Every kept entry is the first entry of the input with its URI. *)
Lemma dedupe_seen_first seen l s :
  s ∈ dedupe_seen seen l →
  ∃ i, l !! i = Some s ∧
       ∀ j t, l !! j = Some t → uri t = uri s → i ≤ j.
Proof.
  revert seen. induction l as [|x l IH]; intros seen; simpl.
  - intros Hin. by apply elem_of_nil in Hin.
  - case_bool_decide as Hseen.
    + intros Hin. pose proof Hin as Hin'.
      destruct (IH _ Hin) as (i & Hi & Hmin).
      exists (S i). split; [done|].
      intros [|j] t Hj Heq; simpl in Hj.
      * injection Hj as <-.
        assert (uri s ∈ uri <$> dedupe_seen seen l) as Hu
          by (apply list_elem_of_fmap; eauto).
        apply dedupe_seen_uris in Hu. rewrite <- Heq in Hu. tauto.
      * specialize (Hmin j t Hj Heq). lia.
    + intros [->|Hin]%elem_of_cons.
      * exists 0. split; [done|]. intros; lia.
      * assert (uri s ∈ uri <$> dedupe_seen (uri x :: seen) l) as Hu
          by (apply list_elem_of_fmap; eauto).
        apply dedupe_seen_uris in Hu.
        destruct (IH _ Hin) as (i & Hi & Hmin).
        exists (S i). split; [done|].
        intros [|j] t Hj Heq; simpl in Hj.
        -- injection Hj as <-. set_solver.
        -- specialize (Hmin j t Hj Heq). lia.
Qed.
End source_mapper.

(** ** The effect monad *)

Lemma append_cons (x : ascii) (a b : string) :
  String x a +:+ b = String x (a +:+ b).
Proof. reflexivity. Qed.

Lemma append_assoc (a b c : string) : (a +:+ b) +:+ c = a +:+ (b +:+ c).
Proof. induction a as [|x a IH]; [done|]. by rewrite !append_cons, IH. Qed.

Lemma append_nil_r (a : string) : a +:+ EmptyString = a.
Proof. induction a as [|x a IH]; [done|]. by rewrite append_cons, IH. Qed.

Lemma prefix_append (a b : string) : String.prefix a (a +:+ b) = true.
Proof.
  induction a as [|x a IH].
  - by destruct b.
  - rewrite append_cons. simpl. destruct (ascii_dec x x); [done|congruence].
Qed.

Lemma concat_text_app (l1 l2 : list string) :
  concat_text (l1 ++ l2) = concat_text l1 +:+ concat_text l2.
Proof.
  induction l1 as [|x l1 IH]; simpl; [done|].
  by rewrite IH, append_assoc.
Qed.

Lemma delivered_app (e1 e2 : list Event) :
  delivered (e1 ++ e2) = delivered e1 ++ delivered e2.
Proof. apply omap_app. Qed.

Lemma delivered_chunks (l : list string) : delivered (EvChunk <$> l) = l.
Proof. induction l as [|x l IH]; simpl; [done|]. by f_equal. Qed.

Lemma requests_app (e1 e2 : list Event) :
  requests (e1 ++ e2) = requests e1 ++ requests e2.
Proof. apply omap_app. Qed.

Lemma requests_chunks (l : list string) : requests (EvChunk <$> l) = [].
Proof. by induction l. Qed.

(** *** Lines 20-39 *)

Lemma get_chat_run (sessionId : string) (st : State) :
  get_chat sessionId st
  = (Returned (session_for st sessionId), registered st sessionId,
     registration st sessionId).
Proof.
  unfold get_chat, session_for, registered, registration, bind, sessions_get.
  destruct (chatSessions st !! sessionId) as [chat|] eqn:Hget; simpl; [done|].
  done.
Qed.

(** *** The loops *)

Lemma take_text_run (onChunk : Callback) (chunk : Chunk) (fullText : string) (st : State) :
  take_text onChunk chunk fullText st
  = match increment chunk with
    | None => (Returned fullText, st, [])
    | Some t =>
        (match onChunk t with
         | Returned _ => Returned (fullText +:+ t)
         | Threw e => Threw e
         end, st, [EvChunk t])
    end.
Proof.
  unfold take_text, increment.
  destruct (text chunk) as [t|]; [|done].
  destruct (truthy_string t); [|done].
  unfold call, bind, emit, lift_outcome, ret; simpl.
  by destruct (onChunk t).
Qed.

Lemma primary_loop_state onChunk s fullText srcs st :
  state_of (primary_loop onChunk s fullText srcs st) = st.
Proof.
  revert fullText srcs.
  induction s as [| e | chunk rest IH]; intros fullText srcs; simpl; [done..|].
  unfold bind. rewrite take_text_run.
  destruct (increment chunk) as [t|].
  - destruct (onChunk t); [|done].
    specialize (IH (fullText +:+ t) (srcs ++ extract chunk)).
    by destruct (primary_loop _ _ _ _ _) as [[? ?] ?].
  - specialize (IH fullText (srcs ++ extract chunk)).
    by destruct (primary_loop _ _ _ _ _) as [[? ?] ?].
Qed.

Lemma fallback_loop_state onChunk s fullText st :
  state_of (fallback_loop onChunk s fullText st) = st.
Proof.
  revert fullText.
  induction s as [| e | chunk rest IH]; intros fullText; simpl; [done..|].
  unfold bind. rewrite take_text_run.
  destruct (increment chunk) as [t|].
  - destruct (onChunk t); [|done].
    specialize (IH (fullText +:+ t)).
    by destruct (fallback_loop _ _ _ _) as [[? ?] ?].
  - specialize (IH fullText).
    by destruct (fallback_loop _ _ _ _) as [[? ?] ?].
Qed.

Section total_callback.
Context (onChunk : Callback) (Htotal : total onChunk).

Lemma primary_loop_run s fullText srcs st :
  primary_loop onChunk s fullText srcs st
  = (match stream_error s with
     | None =>
         Returned (fullText +:+ concat_text (increments (stream_chunks s)),
                   srcs ++ flat_map extract (stream_chunks s))
     | Some e => Threw e
     end, st, EvChunk <$> increments (stream_chunks s)).
Proof using Htotal.
  revert fullText srcs.
  induction s as [| e | chunk rest IH]; intros fullText srcs; simpl.
  - unfold ret. by rewrite append_nil_r, app_nil_r.
  - done.
  - unfold bind. rewrite take_text_run. unfold increments. simpl.
    destruct (increment chunk) as [t|]; simpl.
    + rewrite Htotal, IH. fold (increments (stream_chunks rest)).
      destruct (stream_error rest); [done|].
      by rewrite append_assoc, <- app_assoc.
    + rewrite IH. fold (increments (stream_chunks rest)).
      destruct (stream_error rest); [done|].
      by rewrite <- app_assoc.
Qed.

Lemma fallback_loop_run s fullText st :
  fallback_loop onChunk s fullText st
  = (match stream_error s with
     | None => Returned (fullText +:+ concat_text (increments (stream_chunks s)))
     | Some e => Threw e
     end, st, EvChunk <$> increments (stream_chunks s)).
Proof using Htotal.
  revert fullText.
  induction s as [| e | chunk rest IH]; intros fullText; simpl.
  - unfold ret. by rewrite append_nil_r.
  - done.
  - unfold bind. rewrite take_text_run. unfold increments. simpl.
    destruct (increment chunk) as [t|]; simpl.
    + rewrite Htotal, IH. fold (increments (stream_chunks rest)).
      destruct (stream_error rest); [done|].
      by rewrite append_assoc.
    + rewrite IH. by fold (increments (stream_chunks rest)).
Qed.
End total_callback.

(** *** The three paths, for a callback that returns *)

Section paths.
Context (P : Provider) (prompt sessionId : string).
Context (onChunk : Callback) (Htotal : total onChunk).
Context (st : State).

(** The answers of the provider to the two requests of this call. *)
Let grounded : outcome Stream :=
  sendMessageStream P (session_for st sessionId) prompt.
Let offline : outcome Stream :=
  generateContentStream P fallbackModel prompt fallback_instruction.

Lemma primary_run :
  primary P prompt sessionId onChunk st
  = (match failure grounded with
     | None =>
         Returned {| result_text := concat_text (increments (received grounded));
                     sources := uniqueSources (flat_map extract (received grounded)) |}
     | Some e => Threw e
     end,
     registered st sessionId,
     registration st sessionId
       ++ EvSend (session_for st sessionId) prompt
       :: (EvChunk <$> increments (received grounded))).
Proof using Htotal.
  unfold primary, bind at 1. rewrite get_chat_run.
  unfold bind at 1, send, bind at 1, emit, lift_outcome. subst grounded.
  destruct (sendMessageStream P _ prompt) as [s|e]; simpl; [|by rewrite ?app_nil_r].
  unfold bind. rewrite (primary_loop_run _ Htotal).
  destruct (stream_error s); simpl; by rewrite ?app_nil_r.
Qed.

Lemma fallback_run st' :
  fallback P prompt onChunk st'
  = (match failure offline with
     | None =>
         Returned {| result_text := notice +:+ concat_text (increments (received offline));
                     sources := [] |}
     | Some e => Threw e
     end,
     st',
     EvGenerate fallbackModel prompt fallback_instruction
       :: match offline with
          | Returned _ => EvChunk notice :: (EvChunk <$> increments (received offline))
          | Threw _ => []
          end).
Proof using Htotal.
  unfold fallback, bind at 1, models_generate, bind at 1, emit, lift_outcome.
  subst offline.
  destruct (generateContentStream P _ prompt _) as [s|e]; simpl; [|done].
  unfold bind, call, bind, emit, lift_outcome. rewrite Htotal.
  rewrite (fallback_loop_run _ Htotal).
  destruct (stream_error s); simpl; by rewrite ?app_nil_r.
Qed.

Lemma terminal_run st' :
  terminal onChunk st'
  = (Returned {| result_text := errorMsg; sources := [] |}, st', [EvChunk errorMsg]).
Proof using Htotal.
  unfold terminal, bind, call, bind, emit, lift_outcome, ret. by rewrite Htotal.
Qed.

(** The whole call, path by path. *)
Lemma generateSearchResponse_run :
  generateSearchResponse P prompt sessionId onChunk st
  = match failure grounded with
    | None =>
        (Returned {| result_text := concat_text (increments (received grounded));
                     sources := uniqueSources (flat_map extract (received grounded)) |},
         registered st sessionId,
         registration st sessionId
           ++ EvSend (session_for st sessionId) prompt
           :: (EvChunk <$> increments (received grounded)))
    | Some error =>
        (match failure offline with
         | None =>
             Returned {| result_text := notice +:+ concat_text (increments (received offline));
                         sources := [] |}
         | Some _ => Returned {| result_text := errorMsg; sources := [] |}
         end,
         registered st sessionId,
         (registration st sessionId
            ++ EvSend (session_for st sessionId) prompt
            :: (EvChunk <$> increments (received grounded)))
           ++ EvWarn warn_label error
           :: EvGenerate fallbackModel prompt fallback_instruction
           :: match offline with
              | Returned _ => EvChunk notice :: (EvChunk <$> increments (received offline))
              | Threw _ => []
              end
           ++ match failure offline with
              | None => []
              | Some _ => [EvChunk errorMsg]
              end)
    end.
Proof using Htotal.
  unfold generateSearchResponse, try_catch at 1. rewrite primary_run.
  destruct (failure grounded) as [error|]; [|done].
  unfold bind, console_warn, emit, try_catch. rewrite fallback_run.
  destruct (failure offline) as [e|]; simpl.
  - rewrite terminal_run. simpl. by rewrite <- app_assoc.
  - by rewrite app_nil_r.
Qed.
End paths.

(** *** Facts about the vocabulary *)

Lemma stream_of_error (chunks : list Chunk) : stream_error (stream_of chunks) = None.
Proof. by induction chunks. Qed.

Lemma stream_of_chunks (chunks : list Chunk) : stream_chunks (stream_of chunks) = chunks.
Proof. induction chunks as [|c cs IH]; simpl; [done|]. by f_equal. Qed.

Lemma increments_text_or_empty (chunks : list Chunk) :
  concat_text (increments chunks) = concat_text (text_or_empty <$> chunks).
Proof.
  induction chunks as [|c cs IH]; [done|].
  rewrite fmap_cons. unfold increments, concat_text in *.
  cbn [omap list_omap foldr]. rewrite <- IH.
  unfold increment, text_or_empty.
  by destruct (text c) as [[|x t]|].
Qed.

Lemma delivered_registration (st : State) (sessionId : string) :
  delivered (registration st sessionId) = [].
Proof. unfold registration. by destruct (chatSessions st !! sessionId). Qed.

Lemma requests_registration (st : State) (sessionId : string) :
  requests (registration st sessionId) = [].
Proof. unfold registration. by destruct (chatSessions st !! sessionId). Qed.

Lemma delivered_primary (st : State) (sessionId : string) (chat : Chat)
    (prompt : string) (l : list string) :
  delivered (registration st sessionId ++ EvSend chat prompt :: (EvChunk <$> l)) = l.
Proof.
  rewrite delivered_app, delivered_registration. simpl. apply delivered_chunks.
Qed.

Lemma requests_primary (st : State) (sessionId : string) (chat : Chat)
    (prompt : string) (l : list string) :
  requests (registration st sessionId ++ EvSend chat prompt :: (EvChunk <$> l))
  = [EvSend chat prompt].
Proof.
  rewrite requests_app, requests_registration. simpl. by rewrite requests_chunks.
Qed.

(** ** The contract of generateSearchResponse *)

(** C1. For every prompt, session identifier, provider behaviour and
    state of the registry, and for every callback that returns on every
    increment, the call does not throw: it returns a result object.  The
    result is the accumulated text with the deduplicated sources when
    the grounded request succeeds, the notice followed by the offline
    text with no sources when only the fallback request succeeds, and
    the error string with no sources when both fail. *)
Theorem generateSearchResponse_never_throws
    (P : Provider) (prompt sessionId : string) (onChunk : Callback) (st : State) :
  total onChunk →
  let grounded := sendMessageStream P (session_for st sessionId) prompt in
  let offline := generateContentStream P fallbackModel prompt fallback_instruction in
  ∃ result : GenerationResult,
    outcome_of (generateSearchResponse P prompt sessionId onChunk st) = Returned result
    ∧ match failure grounded, failure offline with
      | None, _ =>
          result = {| result_text := concat_text (increments (received grounded));
                      sources := uniqueSources (flat_map extract (received grounded)) |}
      | Some _, None =>
          result = {| result_text := notice +:+ concat_text (increments (received offline));
                      sources := [] |}
      | Some _, Some _ =>
          result = {| result_text := errorMsg; sources := [] |}
      end.
Proof.
  intros Htotal grounded offline.
  rewrite (generateSearchResponse_run P prompt sessionId onChunk Htotal st).
  fold grounded offline.
  destruct (failure grounded) as [e|]; [|by eexists].
  destruct (failure offline) as [e'|]; by eexists.
Qed.

(** C4. On the primary path the callback receives the text increments
    of the stream, one call per chunk that carries a non-empty text, in
    the order of the stream, and the text of the result is their
    concatenation in that order; this is also the concatenation of the
    texts of all chunks. *)
Theorem primary_streaming_order
    (P : Provider) (prompt sessionId : string) (onChunk : Callback) (st : State)
    (chunks : list Chunk) :
  total onChunk →
  sendMessageStream P (session_for st sessionId) prompt = Returned (stream_of chunks) →
  let run := generateSearchResponse P prompt sessionId onChunk st in
  ∃ result : GenerationResult,
    outcome_of run = Returned result
    ∧ delivered (events_of run) = increments chunks
    ∧ result_text result = concat_text (increments chunks)
    ∧ result_text result = concat_text (text_or_empty <$> chunks).
Proof.
  intros Htotal Hsend run. subst run.
  rewrite (generateSearchResponse_run P prompt sessionId onChunk Htotal st).
  rewrite Hsend. simpl. rewrite stream_of_error, stream_of_chunks.
  eexists. split; [done|]. unfold events_of. simpl.
  split; [apply delivered_primary|].
  split; [done|apply increments_text_or_empty].
Qed.

(** C5, as the code has it. When the grounded request fails and the
    fallback request succeeds, the call returns a result whose text is
    the notice followed by the offline increments, so it begins with
    the notice, and whose sources are empty; the callback receives the
    notice before the offline increments.  The notice is the quoted
    sentence in parentheses, after one line feed and before two. *)
Theorem fallback_discloses
    (P : Provider) (prompt sessionId : string) (onChunk : Callback) (st : State)
    (error : Error) :
  total onChunk →
  let grounded := sendMessageStream P (session_for st sessionId) prompt in
  let offline := generateContentStream P fallbackModel prompt fallback_instruction in
  failure grounded = Some error →
  failure offline = None →
  let run := generateSearchResponse P prompt sessionId onChunk st in
  ∃ result : GenerationResult,
    outcome_of run = Returned result
    ∧ result_text result = notice +:+ concat_text (increments (received offline))
    ∧ String.prefix notice (result_text result) = true
    ∧ sources result = []
    ∧ delivered (events_of run)
      = increments (received grounded) ++ notice :: increments (received offline)
    ∧ notice = LF +:+ "(" +:+ disclosure_sentence +:+ ")" +:+ LF +:+ LF.
Proof.
  intros Htotal grounded offline Hfail Hok run. subst run.
  rewrite (generateSearchResponse_run P prompt sessionId onChunk Htotal st).
  fold grounded offline. rewrite Hfail, Hok.
  eexists. split; [done|]. unfold events_of. simpl.
  split; [done|]. split; [apply prefix_append|]. split; [done|].
  split; [|done].
  rewrite app_nil_r, delivered_app, delivered_primary. f_equal.
  unfold failure in Hok. destruct offline as [s|e]; [|done].
  simpl. by rewrite delivered_chunks.
Qed.

(** C6. When the grounded request and the fallback request both fail,
    the call returns the fixed error string as its text, with no
    sources; the last call of the callback passes that string; and the
    provider has received exactly two requests, the grounded one and the
    fallback one. *)
Theorem terminal_failure
    (P : Provider) (prompt sessionId : string) (onChunk : Callback) (st : State)
    (error error' : Error) :
  total onChunk →
  let grounded := sendMessageStream P (session_for st sessionId) prompt in
  let offline := generateContentStream P fallbackModel prompt fallback_instruction in
  failure grounded = Some error →
  failure offline = Some error' →
  let run := generateSearchResponse P prompt sessionId onChunk st in
  outcome_of run = Returned {| result_text := errorMsg; sources := [] |}
  ∧ last (events_of run) = Some (EvChunk errorMsg)
  ∧ last (delivered (events_of run)) = Some errorMsg
  ∧ requests (events_of run)
    = [ EvSend (session_for st sessionId) prompt;
        EvGenerate fallbackModel prompt fallback_instruction ].
Proof.
  intros Htotal grounded offline Hfail Hfail' run. subst run.
  rewrite (generateSearchResponse_run P prompt sessionId onChunk Htotal st).
  fold grounded offline. rewrite Hfail, Hfail'.
  unfold outcome_of, events_of. simpl. split; [done|].
  set (pre := registration st sessionId ++ _).
  set (mid := match offline with Returned _ => _ | Threw _ => _ end).
  replace (pre ++ EvWarn warn_label error
             :: EvGenerate fallbackModel prompt fallback_instruction
             :: mid ++ [EvChunk errorMsg])
    with ((pre ++ EvWarn warn_label error
             :: EvGenerate fallbackModel prompt fallback_instruction
             :: mid) ++ [EvChunk errorMsg])
    by (by rewrite <- app_assoc).
  split; [apply last_snoc|].
  split.
  - rewrite delivered_app. simpl. apply last_snoc.
  - rewrite !requests_app. subst pre. rewrite requests_primary. simpl.
    rewrite app_nil_r.
    subst mid. destruct offline; simpl; [|done]. by rewrite requests_chunks.
Qed.

(** ** The session registry *)

Section any_callback.
Context (P : Provider) (prompt sessionId : string) (onChunk : Callback).

Lemma primary_state st :
  state_of (primary P prompt sessionId onChunk st) = registered st sessionId.
Proof.
  unfold primary, bind at 1. rewrite get_chat_run.
  unfold bind at 1, send, bind at 1, emit, lift_outcome.
  destruct (sendMessageStream P _ prompt) as [s|e]; simpl; [|done].
  unfold bind.
  pose proof (primary_loop_state onChunk s EmptyString [] (registered st sessionId)) as Hst.
  by destruct (primary_loop _ _ _ _ _) as [[[acc|e] st1] ev1].
Qed.

Lemma primary_events st :
  ∃ rest,
    events_of (primary P prompt sessionId onChunk st)
    = registration st sessionId ++ EvSend (session_for st sessionId) prompt :: rest.
Proof.
  unfold primary, bind at 1. rewrite get_chat_run.
  unfold bind at 1, send, bind at 1, emit, lift_outcome.
  destruct (sendMessageStream P _ prompt) as [s|e]; simpl; [|by eexists].
  unfold bind.
  destruct (primary_loop _ _ _ _ _) as [[[acc|e] st1] ev1]; by eexists.
Qed.

Lemma fallback_state st : state_of (fallback P prompt onChunk st) = st.
Proof.
  unfold fallback, bind at 1, models_generate, bind at 1, emit, lift_outcome.
  destruct (generateContentStream P _ prompt _) as [s|e]; simpl; [|done].
  unfold bind, call, bind, emit, lift_outcome.
  destruct (onChunk notice); [|done].
  pose proof (fallback_loop_state onChunk s (EmptyString +:+ notice) st) as Hst.
  by destruct (fallback_loop _ _ _ _) as [[[acc|e] st1] ev1].
Qed.

Lemma terminal_state st : state_of (terminal onChunk st) = st.
Proof.
  unfold terminal, bind, call, bind, emit, lift_outcome.
  by destruct (onChunk errorMsg).
Qed.

(** The only effect of a call on the module state is that of lines
    20-39, whatever the provider and the callback do.  These lines run
    before the first [await] of the call, so the registry evolves as if
    the calls ran one after the other in the order in which they start,
    also when their streams interleave. *)
Lemma generateSearchResponse_state st :
  state_of (generateSearchResponse P prompt sessionId onChunk st)
  = registered st sessionId.
Proof.
  unfold generateSearchResponse, try_catch at 1.
  pose proof (primary_state st) as Hp.
  destruct (primary _ _ _ _ _) as [[[r|error] st1] ev1]; [done|].
  unfold state_of in Hp. simpl in Hp. subst st1.
  unfold bind, console_warn, emit, try_catch.
  pose proof (fallback_state (registered st sessionId)) as Hf.
  destruct (fallback _ _ _ _) as [[[r|error'] st2] ev2]; [done|].
  unfold state_of in Hf. simpl in Hf. subst st2.
  pose proof (terminal_state (registered st sessionId)) as Ht.
  by destruct (terminal _ _) as [[[r|error''] st3] ev3].
Qed.

(** A call begins with lines 20-39 and the grounded request. *)
Lemma generateSearchResponse_events st :
  ∃ rest,
    events_of (generateSearchResponse P prompt sessionId onChunk st)
    = registration st sessionId ++ EvSend (session_for st sessionId) prompt :: rest.
Proof.
  unfold generateSearchResponse, try_catch at 1.
  destruct (primary_events st) as [rest Hp].
  destruct (primary _ _ _ _ _) as [[[r|error] st1] ev1]; [by eexists|].
  unfold events_of in Hp. simpl in Hp. subst ev1.
  destruct (bind _ _ _) as [[o st2] ev2]. unfold events_of. simpl.
  rewrite <- app_assoc. simpl. by eexists.
Qed.
End any_callback.

(** *** What lines 20-39 do to the registry *)

Lemma registered_lookup (st : State) (sessionId : string) :
  chatSessions (registered st sessionId) !! sessionId = Some (session_for st sessionId).
Proof.
  unfold registered, session_for.
  destruct (chatSessions st !! sessionId) as [chat|] eqn:Hget; simpl; [done|].
  apply lookup_insert_eq.
Qed.

Lemma registered_subseteq (st : State) (sessionId : string) :
  chatSessions st ⊆ chatSessions (registered st sessionId).
Proof.
  unfold registered.
  destruct (chatSessions st !! sessionId) as [chat|] eqn:Hget; simpl; [done|].
  by apply insert_subseteq.
Qed.

Lemma registered_seen (st : State) (sessionId : string) (chat : Chat) :
  chatSessions st !! sessionId = Some chat → registered st sessionId = st.
Proof. unfold registered. by intros ->. Qed.

(** The registry never loses or changes an entry. *)
Lemma calls_subseteq (st st' : State) :
  calls st st' → chatSessions st ⊆ chatSessions st'.
Proof.
  induction 1 as [st|st st' P prompt sessionId onChunk Hcalls IH]; [done|].
  rewrite generateSearchResponse_state.
  etrans; [exact IH|]. apply registered_subseteq.
Qed.

Lemma calls_lookup (st st' : State) (sessionId : string) (chat : Chat) :
  calls st st' →
  chatSessions st !! sessionId = Some chat →
  chatSessions st' !! sessionId = Some chat.
Proof.
  intros Hcalls Hget.
  by apply (lookup_weaken _ _ _ _ Hget), calls_subseteq.
Qed.

Lemma registry_ok_initial : registry_ok initial_state.
Proof.
  split; simpl.
  - by intros sid chat ?%lookup_empty_Some.
  - by intros sid1 sid2 chat ?%lookup_empty_Some.
  - done.
Qed.

Lemma registry_ok_registered (st : State) (sessionId : string) :
  registry_ok st → registry_ok (registered st sessionId).
Proof.
  intros [Hcr Hdi Hsz]. unfold registered.
  destruct (chatSessions st !! sessionId) as [chat|] eqn:Hget; [by split|].
  split; simpl.
  - intros sid chat [[-> <-]|[Hne Hsid]]%lookup_insert_Some; simpl; [lia|].
    specialize (Hcr _ _ Hsid). lia.
  - intros sid1 sid2 chat
      [[-> <-]|[Hne1 Hsid1]]%lookup_insert_Some
      [[-> Heq]|[Hne2 Hsid2]]%lookup_insert_Some; try done.
    + specialize (Hcr _ _ Hsid2). simpl in Hcr. lia.
    + specialize (Hcr _ _ Hsid1). subst chat. simpl in Hcr. lia.
    + by eapply Hdi.
  - rewrite map_size_insert_None by done. by rewrite Hsz.
Qed.

Lemma registry_ok_calls (st st' : State) :
  calls st st' → registry_ok st → registry_ok st'.
Proof.
  induction 1 as [st|st st' P prompt sessionId onChunk Hcalls IH]; [done|].
  intros Hok. rewrite generateSearchResponse_state.
  by apply registry_ok_registered, IH.
Qed.

Lemma registry_ok_reachable (st : State) : reachable st → registry_ok st.
Proof. intros Hr. exact (registry_ok_calls _ _ Hr registry_ok_initial). Qed.

(** C3. In every reachable state the registry holds as many sessions as
    there are identifiers in it.  A call with an identifier that is not
    in the registry creates a new object, one that sits under no other
    identifier, stores it under the identifier and sends the request
    through it.  A call with an identifier that is in the registry
    creates nothing, leaves the module state as it is and sends the
    request through the stored object; the entry stays the same across
    any further calls.  Two distinct identifiers never hold the same
    object. *)
Theorem one_session_per_id (st : State) (sessionId : string) :
  reachable st →
  size (chatSessions st) = created st
  ∧ (chatSessions st !! sessionId = None →
     ∀ P prompt onChunk,
       let run := generateSearchResponse P prompt sessionId onChunk st in
       let chat := {| chat_ref := created st |} in
       (∀ sid, chatSessions st !! sid ≠ Some chat)
       ∧ chatSessions (state_of run) !! sessionId = Some chat
       ∧ ∃ rest,
           events_of run
           = EvCreate chat chat_model chat_config :: EvSet sessionId chat
               :: EvSend chat prompt :: rest)
  ∧ (∀ chat, chatSessions st !! sessionId = Some chat →
     ∀ P prompt onChunk,
       let run := generateSearchResponse P prompt sessionId onChunk st in
       state_of run = st
       ∧ ∃ rest, events_of run = EvSend chat prompt :: rest)
  ∧ (∀ chat st', chatSessions st !! sessionId = Some chat →
     calls st st' → chatSessions st' !! sessionId = Some chat)
  ∧ (∀ sid chat chat', sessionId ≠ sid →
     chatSessions st !! sessionId = Some chat →
     chatSessions st !! sid = Some chat' → chat ≠ chat').
Proof.
  intros Hreach. pose proof (registry_ok_reachable st Hreach) as [Hcr Hdi Hsz].
  split; [done|]. split; [|split; [|split]].
  - intros Hnone P prompt onChunk run chat. subst run.
    split; [|split].
    + intros sid Hsid. specialize (Hcr _ _ Hsid). simpl in Hcr. lia.
    + rewrite generateSearchResponse_state, registered_lookup.
      unfold session_for. by rewrite Hnone.
    + destruct (generateSearchResponse_events P prompt sessionId onChunk st) as [rest Hev].
      exists rest. rewrite Hev. unfold registration, session_for. by rewrite Hnone.
  - intros chat Hsome P prompt onChunk run. subst run. split.
    + rewrite generateSearchResponse_state. by eapply registered_seen.
    + destruct (generateSearchResponse_events P prompt sessionId onChunk st) as [rest Hev].
      exists rest. rewrite Hev. unfold registration, session_for. by rewrite Hsome.
  - intros chat st' Hsome Hcalls. by eapply calls_lookup.
  - intros sid chat chat' Hne Hsome Hsome' ->. apply Hne. by eapply Hdi.
Qed.

(** C9. A call with an identifier that is not in the registry stores the
    new session before it sends the grounded request, which is the first
    request of the call; whatever the provider answers, so also when the
    grounded request fails, the session is in the registry when the call
    ends and stays there across any further calls, each of which, when it
    names the same identifier, sends its request through that session.
    No sequence of calls takes an identifier out of the registry. *)
Theorem session_registered_before_send
    (st : State) (P : Provider) (prompt sessionId : string) (onChunk : Callback) :
  chatSessions st !! sessionId = None →
  let run := generateSearchResponse P prompt sessionId onChunk st in
  let chat := {| chat_ref := created st |} in
  (∃ rest,
     events_of run
     = EvCreate chat chat_model chat_config :: EvSet sessionId chat
         :: EvSend chat prompt :: rest)
  ∧ chatSessions (state_of run) !! sessionId = Some chat
  ∧ (∀ st', calls (state_of run) st' →
       chatSessions st' !! sessionId = Some chat
       ∧ ∀ P' prompt' onChunk',
           let run' := generateSearchResponse P' prompt' sessionId onChunk' st' in
           state_of run' = st'
           ∧ ∃ rest, events_of run' = EvSend chat prompt' :: rest)
  ∧ (∀ st1 st2, calls st1 st2 → dom (chatSessions st1) ⊆ dom (chatSessions st2)).
Proof.
  intros Hnone run chat. subst run.
  assert (chatSessions (state_of (generateSearchResponse P prompt sessionId onChunk st))
            !! sessionId = Some chat) as Hstored.
  { rewrite generateSearchResponse_state, registered_lookup.
    unfold session_for. by rewrite Hnone. }
  split; [|split; [done|split]].
  - destruct (generateSearchResponse_events P prompt sessionId onChunk st) as [rest Hev].
    exists rest. rewrite Hev. unfold registration, session_for. by rewrite Hnone.
  - intros st' Hcalls.
    pose proof (calls_lookup _ _ _ _ Hcalls Hstored) as Hlater.
    split; [done|]. intros P' prompt' onChunk' run'. subst run'. split.
    + rewrite generateSearchResponse_state. by eapply registered_seen.
    + destruct (generateSearchResponse_events P' prompt' sessionId onChunk' st')
        as [rest Hev].
      exists rest. rewrite Hev. unfold registration, session_for. by rewrite Hlater.
  - intros st1 st2 Hcalls. by apply subseteq_dom, calls_subseteq.
Qed.

(** *** Results carry deduplicated sources *)

Lemma primary_sources
    (P : Provider) (prompt sessionId : string) (onChunk : Callback) (st : State)
    (result : GenerationResult) :
  outcome_of (primary P prompt sessionId onChunk st) = Returned result →
  ∃ l, sources result = uniqueSources l.
Proof.
  unfold primary, bind at 1. rewrite get_chat_run.
  unfold bind at 1, send, bind at 1, emit, lift_outcome.
  destruct (sendMessageStream P _ prompt) as [s|e]; simpl; [|done].
  unfold bind.
  destruct (primary_loop _ _ _ _ _) as [[[acc|e] st1] ev1]; simpl; [|done].
  unfold outcome_of. simpl. intros [= <-]. by eexists.
Qed.

Lemma handler_sources
    (P : Provider) (prompt : string) (onChunk : Callback) (error : Error)
    (st : State) (result : GenerationResult) :
  outcome_of ((console_warn warn_label error ;;;
               try_catch (fallback P prompt onChunk) (λ _, terminal onChunk)) st)
  = Returned result →
  sources result = [].
Proof.
  unfold bind, console_warn, emit, try_catch; simpl.
  unfold fallback, bind at 1, models_generate, bind at 1, emit, lift_outcome.
  unfold terminal, call, bind, emit, lift_outcome, ret, outcome_of.
  destruct (generateContentStream P _ prompt _) as [s|e]; simpl.
  - destruct (onChunk notice); simpl.
    + destruct (fallback_loop _ _ _ _) as [[[acc|e] st1] ev1]; simpl.
      * by intros [= <-].
      * destruct (onChunk errorMsg); simpl; [|done]. by intros [= <-].
    + destruct (onChunk errorMsg); simpl; [|done]. by intros [= <-].
  - destruct (onChunk errorMsg); simpl; [|done]. by intros [= <-].
Qed.

Lemma generateSearchResponse_sources
    (P : Provider) (prompt sessionId : string) (onChunk : Callback) (st : State)
    (result : GenerationResult) :
  outcome_of (generateSearchResponse P prompt sessionId onChunk st) = Returned result →
  sources result = [] ∨ ∃ l, sources result = uniqueSources l.
Proof.
  unfold generateSearchResponse, try_catch at 1.
  pose proof (primary_sources P prompt sessionId onChunk st) as Hp.
  destruct (primary _ _ _ _ _) as [[[r|error] st1] ev1].
  - unfold outcome_of at 1. simpl. intros [= <-]. right. by apply Hp.
  - pose proof (handler_sources P prompt onChunk error st1 result) as Hh.
    destruct (bind _ _ _) as [[o st2] ev2].
    unfold outcome_of in *. simpl in *. intros ->. left. by apply Hh.
Qed.

(** C2. The filter keeps, for every URI of the input, exactly one entry,
    the first one of the input with that URI, and keeps the entries in
    the order of the input: it computes the deduplication the
    specification describes, its output has no two entries with the same
    URI and has the URIs of the input, it is a sublist of the input, and
    every kept entry comes before every other entry with its URI.  Hence
    no result of the service has two sources with the same URI. *)
Theorem uniqueSources_first_per_uri (l : list SearchSource) :
  uniqueSources l = dedupe l
  ∧ NoDup (uri <$> uniqueSources l)
  ∧ (∀ u, u ∈ uri <$> uniqueSources l ↔ u ∈ uri <$> l)
  ∧ uniqueSources l `sublist_of` l
  ∧ (∀ s, s ∈ uniqueSources l →
       ∃ i, l !! i = Some s ∧ ∀ j t, l !! j = Some t → uri t = uri s → i ≤ j)
  ∧ (∀ P prompt sessionId onChunk st result,
       outcome_of (generateSearchResponse P prompt sessionId onChunk st) = Returned result →
       NoDup (uri <$> sources result)).
Proof.
  rewrite uniqueSources_dedupe. unfold dedupe.
  split; [done|]. split; [apply dedupe_seen_NoDup|].
  split; [|split; [apply dedupe_seen_sublist|split; [apply dedupe_seen_first|]]].
  - intros u. rewrite dedupe_seen_uris. split; [tauto|].
    intros Hu. split; [done|]. apply not_elem_of_nil.
  - intros P prompt sessionId onChunk st result Hres.
    destruct (generateSearchResponse_sources _ _ _ _ _ _ Hres) as [->|[l' ->]].
    + constructor.
    + rewrite uniqueSources_dedupe. apply dedupe_seen_NoDup.
Qed.

(** C7, as the code has it. An entry without a web reference emits
    nothing.  An entry with a web reference emits exactly one source; its
    title is the placeholder [Source] when the web title is absent or
    the empty string and the web title otherwise, and its URI is the
    placeholder [#] when the web URI is absent or the empty string and
    the web URI otherwise.  The entries of a chunk emit their sources
    one after the other, in the order of the entries. *)
Theorem extract_entry_placeholders (c : GroundingChunk) :
  (web c = None → extract_entry c = [])
  ∧ (∀ w, web c = Some w →
       ∃ s, extract_entry c = [s]
         ∧ (web_title w = None ∨ web_title w = Some EmptyString → title s = "Source")
         ∧ (∀ t, web_title w = Some t → t ≠ EmptyString → title s = t)
         ∧ (web_uri w = None ∨ web_uri w = Some EmptyString → uri s = "#")
         ∧ (∀ u, web_uri w = Some u → u ≠ EmptyString → uri s = u))
  ∧ (∀ before after,
       extract_entries (before ++ c :: after)
       = extract_entries before ++ extract_entry c ++ extract_entries after).
Proof.
  split; [|split].
  - unfold extract_entry. by intros ->.
  - intros w Hw. unfold extract_entry. rewrite Hw. eexists. split; [done|]. simpl.
    repeat split.
    + by intros [->| ->].
    + intros t -> Hne. by destruct t.
    + by intros [->| ->].
    + intros u -> Hne. by destruct u.
  - intros before after. unfold extract_entries.
    by rewrite flat_map_app.
Qed.

(** C10. The placeholders also replace empty strings: an entry whose
    web title is the empty string emits a source titled [Source], and an
    entry whose web URI is the empty string emits a source with URI [#]. *)
Theorem extract_entry_empty_strings (c : GroundingChunk) (w : Web) :
  web c = Some w →
  (web_title w = Some EmptyString → ∃ s, extract_entry c = [s] ∧ title s = "Source")
  ∧ (web_uri w = Some EmptyString → ∃ s, extract_entry c = [s] ∧ uri s = "#").
Proof.
  intros Hw. unfold extract_entry. rewrite Hw.
  split; intros ->; by eexists.
Qed.

(** ** The edge function *)

Lemma js_or_defined (a : option json) (d : json) : ∃ j, js_or a (Some d) = Some j.
Proof. unfold js_or. destruct a as [j|]; [|by eexists]. destruct (js_truthy _); by eexists. Qed.

Lemma answer_of_defined (candidate : option json) : ∃ j, answer_of candidate = Some j.
Proof. apply js_or_defined. Qed.

Lemma groundingMetadata_of_defined (candidate : option json) :
  ∃ j, groundingMetadata_of candidate = Some j.
Proof. apply js_or_defined. Qed.

(** The handler does not throw. *)
Lemma serve_returns (rt : Runtime) (req : Request) :
  ∃ resp, serve rt req = Returned resp.
Proof.
  unfold serve. destruct (String.eqb _ _); [by eexists|].
  destruct (handle rt req); by eexists.
Qed.

(** A response of the [try] body is a JSON object with the two keys. *)
Lemma handle_returned (rt : Runtime) (req : Request) (resp : Response) :
  handle rt req = Returned resp →
  ∃ answer gm,
    resp = {| status := 200; headers := json_headers;
              body := JsonBody (JObj [ ("answer", answer); ("groundingMetadata", gm) ]) |}.
Proof.
  unfold handle, and_then.
  destruct (req_json req) as [parsed|]; [|done].
  destruct (get_property rt "query" (Some parsed)) as [query|]; [|done].
  destruct (negb (js_truthy query)); [done|].
  destruct (env_get rt "GEMINI_API_KEY") as [key|]; [|done].
  destruct (negb (truthy key)); [done|].
  destruct (fetch rt _ _) as [geminiResponse|]; [|done].
  destruct (response_json geminiResponse) as [data|]; [|done].
  destruct (negb (ok geminiResponse)).
  { by destruct (provider_message rt data). }
  destruct (get_property rt "candidates" (Some data)) as [candidates|]; [|done].
  intros [= <-].
  destruct (answer_of_defined (opt_first candidates)) as [a Ha].
  destruct (groundingMetadata_of_defined (opt_first candidates)) as [g Hg].
  exists a, g. unfold ok_response, answer_object. by rewrite Ha, Hg.
Qed.

(** C8. The handler never throws.  A request other than the preflight
    gets either status 200 with a JSON object of the two keys [answer]
    and [groundingMetadata], or status 500 with a JSON object whose only
    key [error] holds a string.  The first happens when the body has a
    truthy query, the key is configured and the provider answers with an
    OK status and a body that is not [null]; the answer is then the
    text of the first part of the first candidate, or the fixed
    placeholder when that text is missing or falsy.  The second happens
    whenever the [try] body throws, and in particular when the body has
    no query, when the key is missing, and when the provider answers
    with a status that is not OK. *)
Theorem serve_contract (rt : Runtime) (req : Request) :
  method req ≠ "OPTIONS" →
  (∃ resp, serve rt req = Returned resp
     ∧ ((status resp = 200
         ∧ ∃ answer gm,
             body resp = JsonBody (JObj [ ("answer", answer); ("groundingMetadata", gm) ]))
        ∨ (status resp = 500
           ∧ ∃ msg : string, body resp = JsonBody (JObj [ ("error", JStr msg) ]))))
  ∧ (∀ error, handle rt req = Threw error →
       serve rt req = Returned (error_response error))
  ∧ (∀ parsed, req_json req = Returned parsed → parsed ≠ JNull →
       js_truthy (property "query" parsed) = false →
       serve rt req = Returned (error_response {| message := missing_query |}))
  ∧ (∀ parsed, req_json req = Returned parsed → parsed ≠ JNull →
       js_truthy (property "query" parsed) = true →
       (env_get rt "GEMINI_API_KEY" = Returned None
        ∨ env_get rt "GEMINI_API_KEY" = Returned (Some EmptyString)) →
       serve rt req = Returned (error_response {| message := missing_key |}))
  ∧ (∀ parsed key geminiResponse data,
       req_json req = Returned parsed → parsed ≠ JNull →
       js_truthy (property "query" parsed) = true →
       env_get rt "GEMINI_API_KEY" = Returned (Some key) → key ≠ EmptyString →
       fetch rt (apiUrl key) (payload (property "query" parsed)) = Returned geminiResponse →
       response_json geminiResponse = Returned data →
       (ok geminiResponse = false →
        ∃ msg : string,
          serve rt req = Returned (error_response {| message := msg |})
          ∧ (data ≠ JNull →
             msg = match js_or (opt_property "message" (property "error" data))
                               (Some (JStr provider_failed)) with
                   | Some j => js_to_string rt j
                   | None => EmptyString
                   end))
       ∧ (ok geminiResponse = true → data ≠ JNull →
          let candidate := opt_first (property "candidates" data) in
          serve rt req
          = Returned (ok_response (answer_of candidate) (groundingMetadata_of candidate))
          ∧ (js_truthy (text_of candidate) = true → answer_of candidate = text_of candidate)
          ∧ (js_truthy (text_of candidate) = false →
             answer_of candidate = Some (JStr no_answer)))).
Proof.
  intros Hmethod.
  assert (String.eqb (method req) "OPTIONS" = false) as Hm
    by by apply String.eqb_neq.
  assert (∀ error, handle rt req = Threw error →
            serve rt req = Returned (error_response error)) as Hcatch.
  { intros error Hthrow. unfold serve. by rewrite Hm, Hthrow. }
  assert (∀ parsed, parsed ≠ JNull →
            get_property rt "query" (Some parsed) = Returned (property "query" parsed))
    as Hquery by (intros parsed Hnn; by destruct parsed).
  split; [|split; [done|split; [|split]]].
  - unfold serve. rewrite Hm.
    destruct (handle rt req) as [resp|error] eqn:Hh; simpl.
    + destruct (handle_returned _ _ _ Hh) as (a & g & ->).
      eexists. split; [done|]. left. split; [done|]. by exists a, g.
    + eexists. split; [done|]. right. split; [done|]. by eexists.
  - intros parsed Hjson Hnn Hfalsy. apply Hcatch.
    unfold handle, and_then. by rewrite Hjson, (Hquery _ Hnn), Hfalsy.
  - intros parsed Hjson Hnn Htruthy Hkey. apply Hcatch.
    unfold handle, and_then. rewrite Hjson, (Hquery _ Hnn), Htruthy. simpl.
    by destruct Hkey as [-> | ->].
  - intros parsed key geminiResponse data Hjson Hnn Htruthy Hkey Hne Hfetch Hdata.
    assert (truthy (Some key) = true) as Hk by (by destruct key).
    split.
    + intros Hok.
      assert (handle rt req
              = (msg <~ provider_message rt data ;; Threw (new_Error rt msg))%outcome)
        as Hh.
      { unfold handle, and_then at 1 2 3 4 5.
        rewrite Hjson, (Hquery _ Hnn), Htruthy. simpl. rewrite Hkey, Hk. simpl.
        by rewrite Hfetch, Hdata, Hok. }
      unfold provider_message, and_then in Hh.
      assert (data = JNull ∨ data ≠ JNull) as [->|Hdn]
        by (destruct data; (by left) || (by right)).
      * simpl in Hh. exists (message (null_access rt "error")).
        split; [|done]. rewrite (Hcatch _ Hh). by destruct (null_access rt "error").
      * assert (get_property rt "error" (Some data) = Returned (property "error" data))
          as Hget by (by destruct data).
        rewrite Hget in Hh. eexists. split; [by rewrite (Hcatch _ Hh)|].
        intros _. done.
    + intros Hok Hdn candidate.
      split; [|split].
      * unfold serve. rewrite Hm. unfold handle, and_then.
        rewrite Hjson, (Hquery _ Hnn), Htruthy. simpl. rewrite Hkey, Hk. simpl.
        rewrite Hfetch, Hdata, Hok. simpl. by destruct data.
      * intros Ht. unfold answer_of, js_or. by rewrite Ht.
      * intros Ht. unfold answer_of, js_or. by rewrite Ht.
Qed.

(** ** The statements at concrete inputs *)

Lemma always_returns_total : total always_returns.
Proof. intros t. reflexivity. Defined.

Example uniqueSources_example :
  uniqueSources [ {| title := "A"; uri := "u1" |};
                  {| title := "B"; uri := "u2" |};
                  {| title := "C"; uri := "u1" |} ]
  = [ {| title := "A"; uri := "u1" |}; {| title := "B"; uri := "u2" |} ].
Proof. vm_compute. reflexivity. Qed.

(** A chunk with an empty text triggers no call of the callback. *)
Example empty_text_is_skipped :
  delivered (events_of
    (generateSearchResponse
       {| sendMessageStream := λ _ _,
            Returned (stream_of [text_chunk "a"; text_chunk EmptyString; text_chunk "b"]);
          generateContentStream := λ _ _ _, Threw network_error |}
       "q" "s1" always_returns initial_state))
  = ["a"; "b"].
Proof. vm_compute. reflexivity. Qed.

(** With a callback that throws, the call throws: the inner [catch]
    calls the callback too. *)
Example throwing_callback_propagates :
  outcome_of (generateSearchResponse down_provider "q" "s1" always_throws initial_state)
  = Threw {| message := "callback failed" |}.
Proof. vm_compute. reflexivity. Qed.

Lemma generateSearchResponse_never_throws_witness :
  total always_returns
  ∧ ∃ result : GenerationResult,
      outcome_of (generateSearchResponse hello_provider "q" "s1" always_returns initial_state)
      = Returned result
      ∧ result = {| result_text := "Hello world"; sources := [] |}.
Proof.
  split; [exact always_returns_total|].
  exact (generateSearchResponse_never_throws hello_provider "q" "s1" always_returns
           initial_state always_returns_total).
Defined.

Lemma uniqueSources_first_per_uri_witness :
  uniqueSources [ {| title := "A"; uri := "u1" |};
                  {| title := "B"; uri := "u2" |};
                  {| title := "C"; uri := "u1" |} ]
  = dedupe [ {| title := "A"; uri := "u1" |};
             {| title := "B"; uri := "u2" |};
             {| title := "C"; uri := "u1" |} ].
Proof.
  exact (proj1 (uniqueSources_first_per_uri
                  [ {| title := "A"; uri := "u1" |};
                    {| title := "B"; uri := "u2" |};
                    {| title := "C"; uri := "u1" |} ])).
Defined.

Lemma one_session_per_id_witness :
  reachable after_first_call
  ∧ chatSessions after_first_call !! "s1" = Some {| chat_ref := 0 |}
  ∧ state_of (generateSearchResponse hello_provider "again" "s1" always_returns
                after_first_call)
    = after_first_call.
Proof.
  assert (reachable after_first_call) as Hreach by apply calls_step, calls_refl.
  split; [exact Hreach|]. split; [reflexivity|].
  exact (proj1 (proj1 (proj2 (proj2 (one_session_per_id after_first_call "s1" Hreach)))
                  {| chat_ref := 0 |} eq_refl hello_provider "again" always_returns)).
Defined.

(** Two calls with the same identifier go through the same session, a
    call with another identifier through another one. *)
Example sessions_by_identifier :
  requests (events_of (generateSearchResponse hello_provider "again" "s1" always_returns
                         after_first_call))
  = [ EvSend {| chat_ref := 0 |} "again" ]
  ∧ requests (events_of (generateSearchResponse hello_provider "other" "s2" always_returns
                           after_first_call))
    = [ EvSend {| chat_ref := 1 |} "other" ].
Proof. split; vm_compute; reflexivity. Qed.

Lemma primary_streaming_order_witness :
  total always_returns
  ∧ sendMessageStream hello_provider (session_for initial_state "s1") "q"
    = Returned (stream_of [text_chunk "Hel"; text_chunk "lo"; text_chunk " world"])
  ∧ ∃ result : GenerationResult,
      outcome_of (generateSearchResponse hello_provider "q" "s1" always_returns initial_state)
      = Returned result
      ∧ delivered (events_of
          (generateSearchResponse hello_provider "q" "s1" always_returns initial_state))
        = ["Hel"; "lo"; " world"]
      ∧ result_text result = "Hello world"
      ∧ result_text result = "Hello world".
Proof.
  split; [exact always_returns_total|]. split; [reflexivity|].
  exact (primary_streaming_order hello_provider "q" "s1" always_returns initial_state
           [text_chunk "Hel"; text_chunk "lo"; text_chunk " world"]
           always_returns_total eq_refl).
Defined.

Lemma fallback_discloses_witness :
  total always_returns
  ∧ failure (sendMessageStream offline_provider (session_for initial_state "s1") "q")
    = Some network_error
  ∧ failure (generateContentStream offline_provider fallbackModel "q" fallback_instruction)
    = None
  ∧ ∃ result : GenerationResult,
      outcome_of (generateSearchResponse offline_provider "q" "s1" always_returns
                    initial_state)
      = Returned result
      ∧ result_text result = notice +:+ "Offline answer"
      ∧ String.prefix notice (result_text result) = true
      ∧ sources result = []
      ∧ delivered (events_of
          (generateSearchResponse offline_provider "q" "s1" always_returns initial_state))
        = [notice; "Offline answer"]
      ∧ notice = LF +:+ "(" +:+ disclosure_sentence +:+ ")" +:+ LF +:+ LF.
Proof.
  split; [exact always_returns_total|]. split; [reflexivity|]. split; [reflexivity|].
  exact (fallback_discloses offline_provider "q" "s1" always_returns initial_state
           network_error always_returns_total eq_refl eq_refl).
Defined.

(** The text of a fallback result does not begin with the bare sentence:
    it begins with a line feed and an opening parenthesis. *)
Lemma fallback_text_counterexample :
  total always_returns
  ∧ failure (sendMessageStream offline_provider (session_for initial_state "s1") "q")
    = Some network_error
  ∧ failure (generateContentStream offline_provider fallbackModel "q" fallback_instruction)
    = None
  ∧ outcome_of (generateSearchResponse offline_provider "q" "s1" always_returns
                  initial_state)
    = Returned {| result_text := notice +:+ "Offline answer"; sources := [] |}
  ∧ String.prefix disclosure_sentence (notice +:+ "Offline answer") = false.
Proof.
  split; [exact always_returns_total|]. repeat split; vm_compute; reflexivity.
Qed.

Lemma terminal_failure_witness :
  total always_returns
  ∧ failure (sendMessageStream down_provider (session_for initial_state "s1") "q")
    = Some network_error
  ∧ failure (generateContentStream down_provider fallbackModel "q" fallback_instruction)
    = Some network_error
  ∧ outcome_of (generateSearchResponse down_provider "q" "s1" always_returns initial_state)
    = Returned {| result_text := errorMsg; sources := [] |}.
Proof.
  split; [exact always_returns_total|]. split; [reflexivity|]. split; [reflexivity|].
  exact (proj1 (terminal_failure down_provider "q" "s1" always_returns initial_state
                  network_error network_error always_returns_total eq_refl eq_refl)).
Defined.

(** An entry whose title is the empty string: the emitted title is the
    placeholder, not the web title. *)
Lemma extract_entry_counterexample :
  extract_entry (web_entry (Some EmptyString) (Some "https://example.org"))
  = [ {| title := "Source"; uri := "https://example.org" |} ]
  ∧ extract_entry (web_entry (Some EmptyString) (Some "https://example.org"))
    ≠ [ {| title := placeholder_if_absent (Some EmptyString) "Source";
           uri := placeholder_if_absent (Some "https://example.org") "#" |} ].
Proof. split; [reflexivity|]. vm_compute. intros H. discriminate H. Qed.

Lemma extract_entry_placeholders_witness :
  ∃ s, extract_entry (web_entry None None) = [s]
    ∧ title s = "Source" ∧ uri s = "#".
Proof.
  destruct (proj1 (proj2 (extract_entry_placeholders (web_entry None None)))
              {| web_title := None; web_uri := None |} eq_refl)
    as (s & Hs & Htitle & _ & Huri & _).
  exists s. split; [exact Hs|]. split; [apply Htitle|apply Huri]; left; reflexivity.
Defined.

Lemma serve_contract_witness :
  method (post (JObj [("query", JStr "rocq")])) ≠ "OPTIONS"
  ∧ ∃ resp,
      serve (demo_runtime (Returned {| ok := true;
               response_json := Returned (provider_data [("text", JStr "Answer")]) |}))
            (post (JObj [("query", JStr "rocq")]))
      = Returned resp
      ∧ ((status resp = 200
          ∧ ∃ answer gm,
              body resp = JsonBody (JObj [ ("answer", answer); ("groundingMetadata", gm) ]))
         ∨ (status resp = 500
            ∧ ∃ msg : string, body resp = JsonBody (JObj [ ("error", JStr msg) ]))).
Proof.
  assert (method (post (JObj [("query", JStr "rocq")])) ≠ "OPTIONS") as H
    by (simpl; discriminate).
  split; [exact H|].
  exact (proj1 (serve_contract _ _ H)).
Defined.

Lemma session_registered_before_send_witness :
  chatSessions initial_state !! "s1" = None
  ∧ chatSessions
      (state_of (generateSearchResponse down_provider "q" "s1" always_returns
                   initial_state)) !! "s1"
    = Some {| chat_ref := 0 |}.
Proof.
  split; [reflexivity|].
  exact (proj1 (proj2 (session_registered_before_send initial_state down_provider
                         "q" "s1" always_returns eq_refl))).
Defined.

Lemma extract_entry_empty_strings_witness :
  web (web_entry (Some EmptyString) (Some EmptyString))
  = Some {| web_title := Some EmptyString; web_uri := Some EmptyString |}
  ∧ (∃ s, extract_entry (web_entry (Some EmptyString) (Some EmptyString)) = [s]
        ∧ title s = "Source")
  ∧ (∃ s, extract_entry (web_entry (Some EmptyString) (Some EmptyString)) = [s]
        ∧ uri s = "#").
Proof.
  split; [reflexivity|].
  pose proof (extract_entry_empty_strings
                (web_entry (Some EmptyString) (Some EmptyString))
                {| web_title := Some EmptyString; web_uri := Some EmptyString |}
                eq_refl) as [Htitle Huri].
  split; [exact (Htitle eq_refl)|exact (Huri eq_refl)].
Defined.

(** *** The edge function at concrete requests *)

Example serve_answers :
  serve (demo_runtime (Returned {| ok := true;
           response_json := Returned (provider_data [("text", JStr "Answer")]) |}))
        (post (JObj [("query", JStr "rocq")]))
  = Returned (ok_response (Some (JStr "Answer"))
                (Some (JObj [ ("webSearchQueries", JArr []) ]))).
Proof. vm_compute. reflexivity. Qed.

Example serve_placeholder :
  serve (demo_runtime (Returned {| ok := true;
           response_json := Returned (JObj [ ("candidates", JArr []) ]) |}))
        (post (JObj [("query", JStr "rocq")]))
  = Returned (ok_response (Some (JStr no_answer)) (Some JNull)).
Proof. vm_compute. reflexivity. Qed.

Example serve_no_query :
  serve (demo_runtime (Threw network_error)) (post (JObj []))
  = Returned (error_response {| message := missing_query |}).
Proof. vm_compute. reflexivity. Qed.

Example serve_empty_query :
  serve (demo_runtime (Threw network_error)) (post (JObj [("query", JStr EmptyString)]))
  = Returned (error_response {| message := missing_query |}).
Proof. vm_compute. reflexivity. Qed.

Example serve_provider_error :
  serve (demo_runtime (Returned {| ok := false;
           response_json :=
             Returned (JObj [ ("error", JObj [ ("message", JStr "quota exceeded") ]) ]) |}))
        (post (JObj [("query", JStr "rocq")]))
  = Returned (error_response {| message := "quota exceeded" |}).
Proof. vm_compute. reflexivity. Qed.

Example serve_network_error :
  serve (demo_runtime (Threw network_error)) (post (JObj [("query", JStr "rocq")]))
  = Returned (error_response network_error).
Proof. vm_compute. reflexivity. Qed.

Example serve_preflight :
  serve (demo_runtime (Threw network_error))
        {| method := "OPTIONS"; req_json := Threw network_error |}
  = Returned {| status := 200; headers := corsHeaders; body := TextBody "ok" |}.
Proof. vm_compute. reflexivity. Qed.

(** * Further properties of the service *)

(** ** Calls with an arbitrary callback *)

Lemma warnings_app (e1 e2 : list Event) :
  warnings (e1 ++ e2) = warnings e1 ++ warnings e2.
Proof. apply omap_app. Qed.

Lemma warnings_chunks (l : list string) : warnings (EvChunk <$> l) = [].
Proof. by induction l. Qed.

Lemma warnings_registration (st : State) (sessionId : string) :
  warnings (registration st sessionId) = [].
Proof. unfold registration. by destruct (chatSessions st !! sessionId). Qed.

Section shape.
Context (P : Provider) (prompt sessionId : string) (onChunk : Callback).

(** The loops only call the callback. *)
Lemma primary_loop_chunks s fullText srcs st :
  ∃ l, events_of (primary_loop onChunk s fullText srcs st) = EvChunk <$> l.
Proof.
  revert fullText srcs.
  induction s as [| e | chunk rest IH]; intros fullText srcs; simpl.
  - by exists [].
  - by exists [].
  - unfold bind. rewrite take_text_run.
    destruct (increment chunk) as [t|].
    + destruct (onChunk t); [|by exists [t]].
      destruct (IH (fullText +:+ t) (srcs ++ extract chunk)) as [l Hl].
      destruct (primary_loop _ _ _ _ _) as [[o st1] ev1].
      unfold events_of in *. simpl in *. subst ev1. by exists (t :: l).
    + destruct (IH fullText (srcs ++ extract chunk)) as [l Hl].
      destruct (primary_loop _ _ _ _ _) as [[o st1] ev1].
      unfold events_of in *. simpl in *. subst ev1. by exists l.
Qed.

Lemma fallback_loop_chunks s fullText st :
  ∃ l, events_of (fallback_loop onChunk s fullText st) = EvChunk <$> l.
Proof.
  revert fullText.
  induction s as [| e | chunk rest IH]; intros fullText; simpl.
  - by exists [].
  - by exists [].
  - unfold bind. rewrite take_text_run.
    destruct (increment chunk) as [t|].
    + destruct (onChunk t); [|by exists [t]].
      destruct (IH (fullText +:+ t)) as [l Hl].
      destruct (fallback_loop _ _ _ _) as [[o st1] ev1].
      unfold events_of in *. simpl in *. subst ev1. by exists (t :: l).
    + destruct (IH fullText) as [l Hl].
      destruct (fallback_loop _ _ _ _) as [[o st1] ev1].
      unfold events_of in *. simpl in *. subst ev1. by exists l.
Qed.

Lemma primary_shape st :
  ∃ o l,
    primary P prompt sessionId onChunk st
    = (o, registered st sessionId,
       registration st sessionId
         ++ EvSend (session_for st sessionId) prompt :: (EvChunk <$> l)).
Proof.
  unfold primary, bind at 1. rewrite get_chat_run.
  unfold bind at 1, send, bind at 1, emit, lift_outcome.
  destruct (sendMessageStream P _ prompt) as [s|e]; simpl; [|by exists (Threw e), []].
  unfold bind.
  pose proof (primary_loop_state onChunk s EmptyString [] (registered st sessionId)) as Hst.
  destruct (primary_loop_chunks s EmptyString [] (registered st sessionId)) as [l Hl].
  destruct (primary_loop _ _ _ _ _) as [[[acc|e] st1] ev1];
    unfold state_of, events_of in *; simpl in *; subst st1 ev1.
  - eexists _, l. by rewrite app_nil_r.
  - by eexists _, l.
Qed.

Lemma fallback_shape st :
  ∃ o l,
    fallback P prompt onChunk st
    = (o, st, EvGenerate fallbackModel prompt fallback_instruction :: (EvChunk <$> l)).
Proof.
  unfold fallback, bind at 1, models_generate, bind at 1, emit, lift_outcome.
  destruct (generateContentStream P _ prompt _) as [s|e]; simpl; [|by exists (Threw e), []].
  unfold bind, call, bind, emit, lift_outcome.
  destruct (onChunk notice); simpl; [|by eexists _, [notice]].
  pose proof (fallback_loop_state onChunk s (EmptyString +:+ notice) st) as Hst.
  destruct (fallback_loop_chunks s (EmptyString +:+ notice) st) as [l Hl].
  destruct (fallback_loop _ _ _ _) as [[[acc|e] st1] ev1];
    unfold state_of, events_of in *; simpl in *; subst st1 ev1.
  - eexists _, (notice :: l). by rewrite app_nil_r.
  - by eexists _, (notice :: l).
Qed.

Lemma terminal_any st :
  terminal onChunk st
  = (match onChunk errorMsg with
     | Returned _ => Returned {| result_text := errorMsg; sources := [] |}
     | Threw e => Threw e
     end, st, [EvChunk errorMsg]).
Proof.
  unfold terminal, bind, call, bind, emit, lift_outcome, ret.
  by destruct (onChunk errorMsg).
Qed.

(** The three shapes of a call: the [try] body returns; it throws and
    the fallback returns; both throw and the inner [catch] runs. *)
Lemma generateSearchResponse_shape st :
  let run := generateSearchResponse P prompt sessionId onChunk st in
  let start l :=
    registration st sessionId
      ++ EvSend (session_for st sessionId) prompt :: (EvChunk <$> l) in
  (∃ result l, run = (Returned result, registered st sessionId, start l))
  ∨ (∃ result error l l',
       run = (Returned result, registered st sessionId,
              start l ++ EvWarn warn_label error
                :: EvGenerate fallbackModel prompt fallback_instruction
                :: (EvChunk <$> l')))
  ∨ (∃ error l l',
       run = (match onChunk errorMsg with
              | Returned _ => Returned {| result_text := errorMsg; sources := [] |}
              | Threw e => Threw e
              end, registered st sessionId,
              start l ++ EvWarn warn_label error
                :: EvGenerate fallbackModel prompt fallback_instruction
                :: (EvChunk <$> l') ++ [EvChunk errorMsg])).
Proof.
  intros run start.
  assert (run = generateSearchResponse P prompt sessionId onChunk st) as Hrun by done.
  clearbody run. unfold generateSearchResponse, try_catch at 1 in Hrun.
  destruct (primary_shape st) as (o & l & Hp). rewrite Hp in Hrun.
  destruct o as [result|error]; [left; by exists result, l|].
  right. unfold bind at 1, console_warn, emit, try_catch in Hrun.
  destruct (fallback_shape (registered st sessionId)) as (o' & l' & Hf).
  rewrite Hf in Hrun.
  destruct o' as [result|error'].
  - left. exists result, error, l, l'. rewrite Hrun. simpl. by rewrite ?app_nil_r.
  - right. exists error, l, l'. rewrite terminal_any in Hrun. by rewrite Hrun.
Qed.
End shape.

(** X1. A call throws only from its inner [catch]: when it throws [e],
    the callback has thrown [e] on the error notice, that was the last
    thing the call did, and both requests had been made.  So a callback
    that returns on the error notice makes the call return, whatever it
    does on the other increments. *)
Theorem throws_only_from_inner_catch
    (P : Provider) (prompt sessionId : string) (onChunk : Callback) (st : State) :
  let run := generateSearchResponse P prompt sessionId onChunk st in
  (∀ e, outcome_of run = Threw e →
     onChunk errorMsg = Threw e
     ∧ last (events_of run) = Some (EvChunk errorMsg)
     ∧ requests (events_of run)
       = [ EvSend (session_for st sessionId) prompt;
           EvGenerate fallbackModel prompt fallback_instruction ])
  ∧ (onChunk errorMsg = Returned tt → ∃ result, outcome_of run = Returned result).
Proof.
  intros run.
  destruct (generateSearchResponse_shape P prompt sessionId onChunk st)
    as [(result & l & Hrun)|[(result & error & l & l' & Hrun)|(error & l & l' & Hrun)]];
    fold run in Hrun; rewrite Hrun; unfold outcome_of, events_of; simpl.
  - split; [done|]. by eexists.
  - split; [done|]. by eexists.
  - split.
    + intros e He. destruct (onChunk errorMsg) as [[]|e'] eqn:Hcb; [done|].
      injection He as ->. split; [done|]. split.
      * rewrite !app_comm_cons, app_assoc. apply last_snoc.
      * rewrite requests_app, requests_primary. simpl.
        by rewrite requests_app, requests_chunks.
    + intros ->. by eexists.
Qed.

(** X2. Whatever the callback does, a call sends the prompt through the
    session of its identifier, first, and then at most one request more:
    the session-less fallback request with the same prompt, which comes
    with exactly one warning on the console. *)
Theorem at_most_two_requests
    (P : Provider) (prompt sessionId : string) (onChunk : Callback) (st : State) :
  let evs := events_of (generateSearchResponse P prompt sessionId onChunk st) in
  (requests evs = [ EvSend (session_for st sessionId) prompt ] ∧ warnings evs = [])
  ∨ (∃ error,
       requests evs
       = [ EvSend (session_for st sessionId) prompt;
           EvGenerate fallbackModel prompt fallback_instruction ]
       ∧ warnings evs = [error]).
Proof.
  intros evs. subst evs.
  destruct (generateSearchResponse_shape P prompt sessionId onChunk st)
    as [(result & l & Hrun)|[(result & error & l & l' & Hrun)|(error & l & l' & Hrun)]];
    rewrite Hrun; unfold events_of; simpl.
  - left. rewrite requests_primary. split; [done|].
    rewrite warnings_app, warnings_registration. simpl. apply warnings_chunks.
  - right. exists error. rewrite requests_app, requests_primary. simpl.
    rewrite requests_chunks. split; [done|].
    rewrite !warnings_app, warnings_registration. simpl.
    by rewrite !warnings_chunks.
  - right. exists error. rewrite requests_app, requests_primary. simpl.
    rewrite requests_app, requests_chunks. split; [done|].
    rewrite !warnings_app, warnings_registration. simpl.
    by rewrite warnings_app, !warnings_chunks.
Qed.

(** X3. A call changes the registry at its own identifier only: every
    other identifier keeps its entry, and the registry and the count of
    created sessions grow by one when the identifier is new and stay as
    they are when it is known. *)
Theorem call_touches_its_entry_only
    (P : Provider) (prompt sessionId : string) (onChunk : Callback) (st : State) :
  let st' := state_of (generateSearchResponse P prompt sessionId onChunk st) in
  let added := match chatSessions st !! sessionId with Some _ => 0 | None => 1 end in
  (∀ sid, sid ≠ sessionId → chatSessions st' !! sid = chatSessions st !! sid)
  ∧ size (chatSessions st') = size (chatSessions st) + added
  ∧ created st' = created st + added.
Proof.
  intros st' added. subst st' added.
  rewrite generateSearchResponse_state. unfold registered.
  destruct (chatSessions st !! sessionId) as [chat|] eqn:Hget; simpl.
  - repeat split; lia.
  - split; [|split].
    + intros sid Hne. by rewrite lookup_insert_ne.
    + rewrite map_size_insert_None by done. lia.
    + lia.
Qed.

(** ** What the caller has shown when the call returns *)

Lemma accumulated_app (e1 e2 : list Event) :
  accumulated (e1 ++ e2) = accumulated e1 +:+ accumulated e2.
Proof. unfold accumulated. by rewrite delivered_app, concat_text_app. Qed.

(** X4. With a callback that returns, the text the caller has
    accumulated from the increments ends with the text of the result.
    The two are equal when the grounded request succeeds.  When it
    fails, the accumulated text starts with the grounded increments
    received before the failure, and when the fallback fails too, also
    with what the fallback had delivered; the result has none of these. *)
Theorem accumulated_ends_with_result
    (P : Provider) (prompt sessionId : string) (onChunk : Callback) (st : State) :
  total onChunk →
  let grounded := sendMessageStream P (session_for st sessionId) prompt in
  let offline := generateContentStream P fallbackModel prompt fallback_instruction in
  let run := generateSearchResponse P prompt sessionId onChunk st in
  let partial := concat_text (increments (received grounded)) in
  let before :=
    match failure grounded, failure offline with
    | None, _ => EmptyString
    | Some _, None => partial
    | Some _, Some _ =>
        partial +:+ match offline with
                    | Returned _ => notice +:+ concat_text (increments (received offline))
                    | Threw _ => EmptyString
                    end
    end in
  ∃ result,
    outcome_of run = Returned result
    ∧ accumulated (events_of run) = before +:+ result_text result.
Proof.
  intros Htotal grounded offline run partial before. subst run.
  rewrite (generateSearchResponse_run P prompt sessionId onChunk Htotal st).
  fold grounded offline.
  assert (∀ l chat, accumulated (registration st sessionId
                       ++ EvSend chat prompt :: (EvChunk <$> l)) = concat_text l)
    as Hstart by (intros l chat; unfold accumulated; by rewrite delivered_primary).
  subst before.
  destruct (failure grounded) as [error|] eqn:Hg.
  - unfold outcome_of, events_of. simpl. rewrite accumulated_app, Hstart. fold partial.
    destruct (failure offline) as [error'|] eqn:Ho; eexists; (split; [done|]); simpl.
    + rewrite !app_comm_cons, accumulated_app, append_assoc. f_equal.
      unfold accumulated at 2. simpl. f_equal.
      destruct offline as [s|e]; [|done].
      unfold accumulated. simpl. by rewrite delivered_chunks.
    + f_equal. rewrite app_nil_r.
      unfold failure in Ho. destruct offline as [s|e]; [|done].
      unfold accumulated. simpl. by rewrite delivered_chunks.
  - eexists. split; [done|]. unfold events_of. simpl. apply Hstart.
Qed.

(** X5. The filter leaves a list as it is exactly when the URIs of the
    list are pairwise distinct; filtering twice is filtering once; and
    the filter never makes a list longer. *)
Theorem uniqueSources_fixpoint (l : list SearchSource) :
  (uniqueSources l = l ↔ NoDup (uri <$> l))
  ∧ uniqueSources (uniqueSources l) = uniqueSources l
  ∧ length (uniqueSources l) ≤ length l.
Proof.
  assert (∀ l' seen, NoDup (uri <$> l') → (∀ u, u ∈ uri <$> l' → u ∉ seen) →
            dedupe_seen seen l' = l') as Hfix.
  { induction l' as [|s l' IH]; intros seen Hnd Hseen; cbn [dedupe_seen]; [done|].
    rewrite fmap_cons in Hnd, Hseen. apply NoDup_cons in Hnd as [Hs Hnd].
    rewrite bool_decide_eq_false_2 by (apply Hseen; left).
    f_equal. apply IH; [done|].
    intros u Hu [->|Hin]%elem_of_cons; [done|].
    apply (Hseen u); [by right|done]. }
  assert (∀ l', NoDup (uri <$> l') → uniqueSources l' = l') as Hfix'.
  { intros l' Hnd. rewrite uniqueSources_dedupe. apply Hfix; [done|].
    intros u _. apply not_elem_of_nil. }
  split; [split|split].
  - intros Heq. rewrite <- Heq, uniqueSources_dedupe. apply dedupe_seen_NoDup.
  - apply Hfix'.
  - apply Hfix'. rewrite uniqueSources_dedupe. apply dedupe_seen_NoDup.
  - rewrite uniqueSources_dedupe. apply sublist_length, dedupe_seen_sublist.
Qed.

(** ** A callback that throws during the grounded stream *)

Lemma primary_loop_throwing (onChunk : Callback) (before : list Chunk) (chunk : Chunk)
    (s : Stream) (t : string) (e : Error) (fullText : string)
    (srcs : list SearchSource) (st : State) :
  (∀ t', t' ∈ increments before → onChunk t' = Returned tt) →
  increment chunk = Some t →
  onChunk t = Threw e →
  (∃ after, stream_chunks s = before ++ chunk :: after) →
  primary_loop onChunk s fullText srcs st
  = (Threw e, st, EvChunk <$> (increments before ++ [t])).
Proof.
  revert s fullText srcs.
  induction before as [|c before IH]; intros s fullText srcs Hret Hinc Hthrow [after Hs].
  - destruct s as [| e' | c' rest]; simpl in Hs; [done..|].
    injection Hs as -> Hafter. simpl. unfold bind.
    by rewrite take_text_run, Hinc, Hthrow.
  - destruct s as [| e' | c' rest]; simpl in Hs; [done..|].
    injection Hs as -> Hrest. simpl. unfold bind. rewrite take_text_run.
    unfold increments in *. cbn [omap list_omap] in *.
    destruct (increment c) as [t'|] eqn:Hc.
    + rewrite Hret by left.
      rewrite (IH rest (fullText +:+ t') (srcs ++ extract c)); [done| |done..|by eexists].
      intros t'' Ht''. apply Hret. by right.
    + by rewrite (IH rest fullText (srcs ++ extract c)); [|done..|by eexists].
Qed.

(** X6. An exception of the callback during the grounded stream is
    handled like a failure of the provider: when the callback throws on
    an increment of the stream after returning on the earlier ones, the
    call stops reading the stream, logs the exception of the callback
    and issues the fallback request. *)
Theorem callback_exception_starts_fallback
    (P : Provider) (prompt sessionId : string) (onChunk : Callback) (st : State)
    (s : Stream) (before after : list Chunk) (chunk : Chunk) (t : string) (e : Error) :
  sendMessageStream P (session_for st sessionId) prompt = Returned s →
  stream_chunks s = before ++ chunk :: after →
  (∀ t', t' ∈ increments before → onChunk t' = Returned tt) →
  increment chunk = Some t →
  onChunk t = Threw e →
  ∃ rest,
    events_of (generateSearchResponse P prompt sessionId onChunk st)
    = registration st sessionId
        ++ EvSend (session_for st sessionId) prompt
        :: (EvChunk <$> increments before)
        ++ EvChunk t
        :: EvWarn warn_label e
        :: EvGenerate fallbackModel prompt fallback_instruction
        :: rest.
Proof.
  intros Hsend Hs Hret Hinc Hthrow.
  unfold generateSearchResponse, try_catch at 1, primary, bind at 1.
  rewrite get_chat_run.
  unfold bind at 1, send, bind at 1, emit, lift_outcome. rewrite Hsend. simpl.
  unfold bind at 1.
  rewrite (primary_loop_throwing onChunk before chunk s t e); [|done..|by eexists].
  unfold bind at 1, console_warn, emit, try_catch.
  destruct (fallback_shape P prompt onChunk (registered st sessionId)) as (o & l & ->).
  destruct o as [result|error].
  - eexists. unfold events_of. simpl.
    rewrite fmap_app, <- !app_assoc. simpl. by rewrite <- app_assoc.
  - rewrite terminal_any. eexists. unfold events_of. simpl.
    rewrite fmap_app, <- !app_assoc. simpl. by rewrite <- app_assoc.
Qed.

(** X7. When the grounded request succeeds, the URIs of the result's
    sources are the URIs the chunks of the stream give through [extract],
    and every source of the result is one that some chunk gave. *)
Theorem sources_come_from_chunks
    (P : Provider) (prompt sessionId : string) (onChunk : Callback) (st : State)
    (chunks : list Chunk) :
  total onChunk →
  sendMessageStream P (session_for st sessionId) prompt = Returned (stream_of chunks) →
  ∃ result,
    outcome_of (generateSearchResponse P prompt sessionId onChunk st) = Returned result
    ∧ (∀ u, u ∈ uri <$> sources result
            ↔ ∃ chunk, chunk ∈ chunks ∧ u ∈ uri <$> extract chunk)
    ∧ (∀ s, s ∈ sources result → ∃ chunk, chunk ∈ chunks ∧ s ∈ extract chunk).
Proof.
  intros Htotal Hsend.
  rewrite (generateSearchResponse_run P prompt sessionId onChunk Htotal st).
  rewrite Hsend. simpl. rewrite stream_of_error, stream_of_chunks.
  eexists. split; [done|]. simpl. rewrite uniqueSources_dedupe. split.
  - intros u. unfold dedupe. rewrite dedupe_seen_uris. split.
    + intros [(s & -> & Hs)%list_elem_of_fmap _].
      apply list_elem_of_In, in_flat_map in Hs as (chunk & Hc & Hs).
      exists chunk. split; [by apply list_elem_of_In|].
      apply list_elem_of_fmap. exists s. split; [done|by apply list_elem_of_In].
    + intros (chunk & Hc & (s & -> & Hs)%list_elem_of_fmap).
      split; [|apply not_elem_of_nil].
      apply list_elem_of_fmap. exists s. split; [done|].
      apply list_elem_of_In, in_flat_map. exists chunk.
      split; by apply list_elem_of_In.
  - intros s Hs.
    apply (λ H, elem_of_sublist _ _ _ H (dedupe_seen_sublist [] _)) in Hs.
    apply list_elem_of_In, in_flat_map in Hs as (chunk & Hc & Hs).
    exists chunk. split; by apply list_elem_of_In.
Qed.

(** ** Further properties of the edge function *)




(** X9. Every response of the handler carries the two CORS headers
    first, whatever its status, and every response with a JSON body also
    declares the JSON content type. *)
Theorem every_response_has_cors_headers (rt : Runtime) (req : Request) :
  ∃ resp,
    serve rt req = Returned resp
    ∧ corsHeaders `prefix_of` headers resp
    ∧ (∀ j, body resp = JsonBody j →
         ("Content-Type", "application/json") ∈ headers resp).
Proof.
  unfold serve. destruct (String.eqb _ _).
  - eexists. split; [done|]. simpl. split; [done|]. by intros j.
  - assert (∀ resp, headers resp = json_headers →
              corsHeaders `prefix_of` headers resp
              ∧ (∀ j, body resp = JsonBody j →
                   ("Content-Type", "application/json") ∈ headers resp)) as Hjson.
    { intros resp ->. split; [by apply prefix_app_r|].
      intros j _. unfold json_headers. apply elem_of_app. right. by left. }
    destruct (handle rt req) as [resp|error] eqn:Hh; simpl.
    + exists resp. split; [done|]. apply Hjson.
      destruct (handle_returned _ _ _ Hh) as (a & g & ->). done.
    + eexists. split; [done|]. by apply Hjson.
Qed.

(** X10. The handler answers without the network when the request is
    the preflight, when its body cannot be read or has no truthy query,
    and when the API key cannot be read or is missing or empty: in
    these cases the response does not depend on what [fetch] would do. *)
Theorem no_network_before_validation
    (rt : Runtime) (req : Request) (f : string → json → outcome FetchResponse) :
  method req = "OPTIONS"
  ∨ (∃ e, req_json req = Threw e)
  ∨ (∃ parsed, req_json req = Returned parsed
       ∧ js_truthy (property "query" parsed) = false)
  ∨ (∃ e, env_get rt "GEMINI_API_KEY" = Threw e)
  ∨ env_get rt "GEMINI_API_KEY" = Returned None
  ∨ env_get rt "GEMINI_API_KEY" = Returned (Some EmptyString) →
  serve (with_fetch rt f) req = serve rt req.
Proof.
  intros Hcase. unfold serve.
  destruct (String.eqb (method req) "OPTIONS") eqn:Hm; [done|].
  f_equal. unfold handle, and_then.
  destruct Hcase as [Hopt|Hcase].
  { apply String.eqb_neq in Hm. done. }
  destruct (req_json req) as [parsed|e]; [|done].
  assert (get_property (with_fetch rt f) "query" (Some parsed)
          = get_property rt "query" (Some parsed)) as -> by by destruct parsed.
  destruct (get_property rt "query" (Some parsed)) as [query|] eqn:Hq; [|done].
  destruct (js_truthy query) eqn:Ht; simpl; [|done].
  destruct Hcase as [[e He]|[(parsed' & [= <-] & Hfalsy)|Hkey]]; [done| |].
  { assert (query = property "query" parsed) as ->
      by (destruct parsed; simpl in Hq; by simplify_eq).
    congruence. }
  destruct Hkey as [[e He]|[Hkey|Hkey]]; simpl in *; by rewrite ?He, ?Hkey.
Qed.

(** ** hashPassword *)

Lemma append_nil_l (a : string) : EmptyString +:+ a = a.
Proof. reflexivity. Qed.

Lemma length_append (a b : string) :
  String.length (a +:+ b) = String.length a + String.length b.
Proof. induction a as [|x a IH]; [done|]. rewrite append_cons. simpl. by rewrite IH. Qed.

Lemma list_ascii_of_append (a b : string) :
  list_ascii_of_string (a +:+ b) = list_ascii_of_string a ++ list_ascii_of_string b.
Proof. induction a as [|x a IH]; [done|]. rewrite append_cons. simpl. by rewrite IH. Qed.

Lemma hex_digits_ok_all (b : Byte.byte) : hex_digits_ok b = true.
Proof. destruct b; vm_compute; reflexivity. Qed.

(** The two characters of a byte: both are hexadecimal digits, and
    they give the byte back. *)
Lemma byte_hex_digits (b : Byte.byte) :
  ∃ c1 c2 h l,
    padStart (byte_toString16 b) 2 "0" = String c1 (String c2 EmptyString)
    ∧ is_hex_char c1 = true ∧ is_hex_char c2 = true
    ∧ hex_value c1 = Some h ∧ hex_value c2 = Some l
    ∧ Byte.of_N (16 * h + l) = Some b.
Proof.
  pose proof (hex_digits_ok_all b) as Hok. unfold hex_digits_ok in Hok.
  destruct (padStart (byte_toString16 b) 2 "0") as [|c1 [|c2 [|c3 rest]]]; try done.
  apply andb_prop in Hok as [Hchars Hok]. apply andb_prop in Hchars as [H1 H2].
  destruct (hex_value c1) as [h|] eqn:Hh; [|done].
  destruct (hex_value c2) as [l|] eqn:Hl; [|done].
  destruct (Byte.of_N (16 * h + l)) as [b'|] eqn:Hb; [|done].
  apply Byte.byte_dec_bl in Hok as ->.
  by exists c1, c2, h, l.
Qed.

Lemma unhex_hex (hashArray : list Byte.byte) : unhex (hex hashArray) = Some hashArray.
Proof.
  induction hashArray as [|b bs IH]; [done|].
  unfold hex in *. cbn [map concat_text foldr].
  destruct (byte_hex_digits b) as (c1 & c2 & h & l & -> & _ & _ & Hh & Hl & Hb).
  rewrite !append_cons. cbn [unhex].
  rewrite append_nil_l. unfold concat_text in IH.
  by rewrite Hh, Hl, IH, Hb.
Qed.

(** X11. The hexadecimal text of a byte array has two characters for
    every byte, all of them digits or lower-case letters from [a] to
    [f]. *)
Theorem hex_format (hashArray : list Byte.byte) :
  String.length (hex hashArray) = 2 * length hashArray
  ∧ Forall (λ c, is_hex_char c = true) (list_ascii_of_string (hex hashArray)).
Proof.
  induction hashArray as [|b bs [IHlen IHall]]; [by split|].
  unfold hex in *. cbn [map concat_text foldr].
  fold (concat_text (map (λ b, padStart (byte_toString16 b) 2 "0") bs)) in *.
  destruct (byte_hex_digits b) as (c1 & c2 & h & l & -> & H1 & H2 & _).
  split.
  - rewrite length_append, IHlen. simpl. lia.
  - rewrite list_ascii_of_append. simpl. by repeat constructor.
Qed.

(** X12. Two byte arrays with the same hexadecimal text are equal: the
    text can be read back, two digits a byte. *)
Theorem hex_injective (a b : list Byte.byte) :
  (hex a = hex b → a = b) ∧ unhex (hex a) = Some a.
Proof.
  split; [|apply unhex_hex].
  intros Heq. pose proof (unhex_hex a) as Ha. rewrite Heq, unhex_hex in Ha.
  by injection Ha.
Qed.

(** X13. [hashPassword] rejects exactly when the digest rejects, with
    the same error.  When the digest has thirty-two bytes, as SHA-256
    has, the result has sixty-four characters; and two passwords get the
    same hash exactly when they get the same digest. *)
Theorem hashPassword_contract (W : WebCrypto) (password : string) :
  let digest_of p := subtle_digest W "SHA-256" (text_encode W p) in
  (∀ e, digest_of password = Threw e → hashPassword W password = Threw e)
  ∧ (∀ h, digest_of password = Returned h →
       hashPassword W password = Returned (hex h)
       ∧ (length h = 32 → String.length (hex h) = 64))
  ∧ (∀ other h h',
       digest_of password = Returned h → digest_of other = Returned h' →
       (hashPassword W password = hashPassword W other ↔ h = h')).
Proof.
  intros digest_of. subst digest_of. unfold hashPassword, and_then. simpl.
  split; [|split].
  - by intros e ->.
  - intros h ->. split; [done|].
    intros Hlen. rewrite (proj1 (hex_format h)), Hlen. done.
  - intros other h h' -> ->. split.
    + intros [= Heq]. pose proof (unhex_hex h) as Hh.
      rewrite Heq, unhex_hex in Hh. by injection Hh.
    + by intros ->.
Qed.

(** ** The search handler of the application *)

(** With a callback that returns, a call returns a result and leaves the
    module in the state that lines 20-39 give. *)
Lemma generateSearchResponse_returns
    (P : Provider) (prompt sessionId : string) (onChunk : Callback) (st : State) :
  total onChunk →
  ∃ result evs,
    generateSearchResponse P prompt sessionId onChunk st
    = (Returned result, registered st sessionId, evs).
Proof.
  intros Htotal.
  rewrite (generateSearchResponse_run P prompt sessionId onChunk Htotal st).
  destruct (failure (sendMessageStream P _ prompt)); [|by eexists _, _].
  destruct (failure (generateContentStream P _ prompt _)); by eexists _, _.
Qed.

Lemma App_onChunk_total : total App.onChunk.
Proof. by intros t. Qed.

Section app_updates.
Context (base : list App.ChatMessage).

Lemma update_last_model (change : App.ChatMessage → App.ChatMessage)
    (m : App.ChatMessage) :
  App.role m = App.model →
  App.update_last change (base ++ [m]) = Some (base ++ [change m]).
Proof.
  intros Hrole. unfold App.update_last. rewrite last_snoc, Hrole.
  rewrite length_app. simpl.
  replace (length base + 1 - 1) with (length base) by lia.
  by rewrite take_app_length.
Qed.

(** The streaming updaters change the content of the last message and
    nothing else, and none of them fails. *)
Lemma stream_updates_last (chunks : list string) (currentText : string)
    (m : App.ChatMessage) (evs : list App.AppEvent) :
  App.role m = App.model →
  ∃ shown,
    App.stream_updates currentText chunks (base ++ [m], evs)
    = (base ++ [App.show_text shown m], evs).
Proof.
  revert currentText m. induction chunks as [|chunk rest IH]; intros currentText m Hrole.
  - exists (App.content m). simpl. by destruct m.
  - simpl. unfold App.setMessages. simpl. rewrite update_last_model by done.
    destruct (IH (currentText +:+ chunk) (App.show_text (currentText +:+ chunk) m) Hrole)
      as [shown ->].
    by exists shown.
Qed.
End app_updates.

(** X14. A search with a blank query, or started while another one is
    loading, does nothing: no state is set and no request is made.  Any
    other search ends, whatever the provider answers, with the loading
    flag down, the query field empty and the search view shown; the
    messages are the earlier ones (none when the search started from the
    home view) followed by the question and by the answer, whose content
    and sources are those of the result and which is no longer
    streaming.  No updater fails, nothing is logged as an error, and the
    question is inserted into the store exactly when a user is signed
    in. *)
Theorem handleSearch_outcome
    (B : App.Browser) (P : Provider) (overrideQuery : option string)
    (app : App.AppState) (st : State) :
  let searchQuery := App.searchQuery_of overrideQuery app in
  let activeSessionId := App.activeSessionId_of B app in
  let run := App.handleSearch B P overrideQuery app st in
  (truthy_string (App.trim B searchQuery) = false ∨ App.isLoading app = true →
   run = (app, st, []))
  ∧ (truthy_string (App.trim B searchQuery) = true → App.isLoading app = false →
     ∃ result evs,
       generateSearchResponse P searchQuery activeSessionId App.onChunk st
       = (Returned result, registered st activeSessionId, evs)
       ∧ run.1.2 = registered st activeSessionId
       ∧ run.2 = App.insert_message searchQuery activeSessionId app ++ (App.Service <$> evs)
       ∧ App.messages run.1.1
         = match App.currentView app with
           | App.home => []
           | _ => App.messages app
           end ++ [App.userMsg searchQuery; App.answer_message result]
       ∧ App.isLoading run.1.1 = false
       ∧ App.query run.1.1 = EmptyString
       ∧ App.currentView run.1.1 = App.search
       ∧ App.sessionId run.1.1 = activeSessionId).
Proof.
  intros searchQuery activeSessionId run. subst run. unfold App.handleSearch.
  fold searchQuery activeSessionId. split.
  - intros [-> | ->]; [done|]. by rewrite orb_true_r.
  - intros -> ->. cbn [negb orb].
    destruct (generateSearchResponse_returns P searchQuery activeSessionId App.onChunk st
                App_onChunk_total) as (result & evs & Hrun).
    rewrite Hrun. exists result, evs. split; [done|].
    set (base := match App.currentView app with
                 | App.home => []
                 | _ => App.messages app
                 end).
    assert (App.opening_messages searchQuery app
            = (base ++ [App.userMsg searchQuery]) ++ [App.aiPlaceholder]) as ->.
    { unfold App.opening_messages. subst base.
      destruct (App.currentView app); by rewrite <- ?app_assoc. }
    destruct (stream_updates_last (base ++ [App.userMsg searchQuery]) (delivered evs)
                EmptyString App.aiPlaceholder
                (App.insert_message searchQuery activeSessionId app ++ (App.Service <$> evs))
                eq_refl) as [shown ->].
    unfold App.setMessages. simpl.
    rewrite update_last_model by done. simpl.
    repeat split. by rewrite <- app_assoc.
Qed.

(** X15. A follow-up question goes through the session of the first
    one.  After a search from the home view, a second search from the
    resulting state keeps the session identifier, finds the session the
    first search registered, creates no session and sends its question
    through that one. *)
Theorem follow_up_reuses_session
    (B B' : App.Browser) (P P' : Provider) (q1 q2 : option string)
    (app : App.AppState) (st : State) :
  let first := App.handleSearch B P q1 app st in
  let second := App.handleSearch B' P' q2 first.1.1 first.1.2 in
  let sq1 := App.searchQuery_of q1 app in
  let sq2 := App.searchQuery_of q2 first.1.1 in
  App.currentView app = App.home →
  App.isLoading app = false →
  truthy_string (App.trim B sq1) = true →
  truthy_string (App.trim B' sq2) = true →
  ∃ chat,
    chatSessions first.1.2 !! App.newId B = Some chat
    ∧ App.sessionId second.1.1 = App.newId B
    ∧ second.1.2 = first.1.2
    ∧ App.Service (EvSend chat sq1) ∈ first.2
    ∧ (∃ rest, second.2
         = App.insert_message sq2 (App.newId B) first.1.1
             ++ App.Service (EvSend chat sq2) :: rest)
    ∧ (∀ c m cfg, App.Service (EvCreate c m cfg) ∉ second.2).
Proof.
  intros first second sq1 sq2 Hhome Hload Hq1 Hq2.
  destruct (proj2 (handleSearch_outcome B P q1 app st) Hq1 Hload)
    as (r1 & ev1 & Hrun1 & Hst1 & Hev1 & Hmsg1 & Hl1 & _ & Hview1 & Hsid1).
  fold first in Hst1, Hev1, Hl1, Hview1, Hsid1.
  assert (App.activeSessionId_of B app = App.newId B) as Hact
    by (unfold App.activeSessionId_of; by rewrite Hhome).
  rewrite Hact in *.
  fold sq1 in Hrun1, Hev1.
  assert (App.activeSessionId_of B' first.1.1 = App.newId B) as Hact2
    by (unfold App.activeSessionId_of; by rewrite Hview1).
  destruct (proj2 (handleSearch_outcome B' P' q2 first.1.1 first.1.2) Hq2 Hl1)
    as (r2 & ev2 & Hrun2 & Hst2 & Hev2 & _ & _ & _ & _ & Hsid2).
  fold second in Hst2, Hev2, Hsid2. fold sq2 in Hrun2, Hev2.
  rewrite Hact2 in *.
  set (chat := session_for st (App.newId B)).
  assert (chatSessions first.1.2 !! App.newId B = Some chat) as Hreg
    by (rewrite Hst1; apply registered_lookup).
  exists chat. split; [done|]. split; [done|]. split.
  { rewrite Hst2. by eapply registered_seen. }
  assert (session_for first.1.2 (App.newId B) = chat) as Hsess
    by (unfold session_for; by rewrite Hreg).
  assert (registration first.1.2 (App.newId B) = []) as Hnone
    by (unfold registration; by rewrite Hreg).
  split; [|split].
  - rewrite Hev1. apply elem_of_app. right. apply list_elem_of_fmap.
    exists (EvSend chat sq1). split; [done|].
    destruct (generateSearchResponse_events P sq1 (App.newId B) App.onChunk st)
      as [rest Hrest].
    rewrite Hrun1 in Hrest. unfold events_of in Hrest. simpl in Hrest. rewrite Hrest.
    apply elem_of_app. right. by left.
  - destruct (generateSearchResponse_events P' sq2 (App.newId B) App.onChunk first.1.2)
      as [rest Hrest].
    rewrite Hrun2 in Hrest. unfold events_of in Hrest. simpl in Hrest.
    rewrite Hnone, Hsess in Hrest. simpl in Hrest.
    exists (App.Service <$> rest). by rewrite Hev2, Hrest.
  - intros c m cfg Hin. rewrite Hev2 in Hin.
    apply elem_of_app in Hin as [Hin|Hin].
    + unfold App.insert_message in Hin.
      destruct (App.currentUserId first.1.1); [|by apply elem_of_nil in Hin].
      destruct (_ && _); [|by apply elem_of_nil in Hin].
      by apply list_elem_of_singleton in Hin.
    + apply list_elem_of_fmap in Hin as (e & [= <-] & Hin).
      destruct (generateSearchResponse_shape P' sq2 (App.newId B) App.onChunk first.1.2)
        as [(res & l & Hs)|[(res & err & l & l' & Hs)|(err & l & l' & Hs)]];
        rewrite Hrun2 in Hs; apply (f_equal snd) in Hs; simpl in Hs; subst ev2;
        rewrite Hnone in Hin; simpl in Hin.
      * apply elem_of_cons in Hin as [|Hin]; [done|].
        by apply list_elem_of_fmap in Hin as (? & ? & _).
      * rewrite app_comm_cons in Hin. apply elem_of_app in Hin as [Hin|Hin].
        -- apply elem_of_cons in Hin as [|Hin]; [done|].
           by apply list_elem_of_fmap in Hin as (? & ? & _).
        -- do 2 (apply elem_of_cons in Hin as [|Hin]; [done|]).
           by apply list_elem_of_fmap in Hin as (? & ? & _).
      * rewrite app_comm_cons in Hin. apply elem_of_app in Hin as [Hin|Hin].
        -- apply elem_of_cons in Hin as [|Hin]; [done|].
           by apply list_elem_of_fmap in Hin as (? & ? & _).
        -- do 2 (apply elem_of_cons in Hin as [|Hin]; [done|]).
           apply elem_of_app in Hin as [Hin|Hin].
           ++ by apply list_elem_of_fmap in Hin as (? & ? & _).
           ++ by apply list_elem_of_singleton in Hin.
Qed.

(** ** The sign-in form *)

(** Membership in a list that is written out. *)
Ltac in_listed :=
  repeat match goal with
         | H : _ ∈ [] |- _ => by apply elem_of_nil in H
         | H : _ ∈ _ :: _ |- _ => apply elem_of_cons in H as [H|H]
         | H : _ ∈ _ ++ _ |- _ => apply elem_of_app in H as [H|H]
         end;
  simplify_eq.

Ltac listed := repeat intros ?; in_listed.

Ltac nonempty :=
  first [ done
        | match goal with
          | |- context [truthy_string ?s] => by destruct s
          end ].

Lemma or_default_nonempty (v : option string) (d : string) :
  d ≠ EmptyString → or_default v d ≠ EmptyString.
Proof. intros Hd. unfold or_default. by destruct v as [[|c s]|]. Qed.

Lemma handleSubmit_submission (E : Auth.Env) (mode : Auth.Mode) (formData : Auth.FormData) :
  submission E mode formData (Auth.handleSubmit E mode formData).
Proof.
  unfold Auth.handleSubmit, Auth.settle.
  destruct (_ <? 3); [by apply rejected|].
  destruct (_ <? 6); [by apply rejected|].
  unfold Auth.attempt, Auth.bind at 1, Auth.lift.
  destruct (hashPassword _ _) as [hashed|e]; simpl.
  2: { apply failed; [nonempty|listed..]. }
  destruct mode.
  - (* login *)
    unfold Auth.bind, Auth.emit, Auth.storage_set, Auth.bind, Auth.emit, Auth.lift,
      Auth.setSuccess, Auth.throw. simpl.
    destruct (Auth.select_user E _ hashed) as [[user|] [fetchError|]] eqn:Hsel; simpl.
    + apply failed; [done|listed..].
    + destruct (Auth.setItem E _ _) as [[]|e] eqn:Hset; simpl.
      * apply (granted E Auth.login formData _ (Auth.SelectUser _ hashed) user 800);
          [done|done|]. by rewrite Hsel.
      * apply failed; [nonempty| |listed..].
        intros key value Hin. in_listed. split; [done|]. by rewrite Hset.
    + apply failed; [done|listed..].
    + apply failed; [done|listed..].
  - (* signup *)
    unfold Auth.bind at 1, Auth.lift.
    destruct (Auth.encodeURIComponent E _) as [encoded|e]; simpl.
    2: { apply failed; [nonempty|listed..]. }
    unfold Auth.bind, Auth.emit, Auth.storage_set, Auth.bind, Auth.emit, Auth.lift,
      Auth.setSuccess, Auth.setError, Auth.setLoading, Auth.throw, Auth.ret. simpl.
    match goal with |- context [Auth.insert_user E ?r] => set (row := r) end.
    destruct (Auth.insert_user E row) as [[user|] [insertError|]] eqn:Hins; simpl.
    + destruct (String.eqb _ _); simpl.
      * apply failed; [done|listed..].
      * apply failed; [nonempty|listed..].
    + destruct (Auth.setItem E _ _) as [[]|e] eqn:Hset; simpl.
      * apply (granted E Auth.signup formData _ (Auth.InsertUser row) user 1000);
          [done|done|]. by rewrite Hins.
      * apply failed; [nonempty| |listed..].
        intros key value Hin. in_listed. split; [done|]. by rewrite Hset.
    + destruct (String.eqb _ _); simpl.
      * apply failed; [done|listed..].
      * apply failed; [nonempty|listed..].
    + apply silent; [done|by rewrite Hins..].
Qed.

(** X16. However a submission goes, it ends with the loading flag down
    and never shows an error and a success message together.  The
    success message is shown exactly when the completion of the form has
    been scheduled, and then the session of a user row that the data
    store returned has been written to the local storage.  A submission
    whose identifier or password is too short does nothing but show an
    error; a login never inserts a user and a signup never queries one. *)
Theorem handleSubmit_invariants
    (E : Auth.Env) (mode : Auth.Mode) (formData : Auth.FormData) :
  let run := Auth.handleSubmit E mode formData in
  Auth.loading run.1 = false
  ∧ (Auth.error_shown run.1 = EmptyString ∨ Auth.success run.1 = EmptyString)
  ∧ (Auth.success run.1 ≠ EmptyString ↔ ∃ ms, Auth.SetTimeout ms ∈ run.2)
  ∧ ((∃ ms, Auth.SetTimeout ms ∈ run.2) →
     ∃ user, Auth.SetItem Auth.session_key (Auth.id user) ∈ run.2
       ∧ Auth.setItem E Auth.session_key (Auth.id user) = Returned tt
       ∧ ((∃ row, Auth.InsertUser row ∈ run.2
             ∧ Auth.data (Auth.insert_user E row) = Some user)
          ∨ (∃ i h, Auth.SelectUser i h ∈ run.2
               ∧ Auth.data (Auth.select_user E i h) = Some user)))
  ∧ (Auth.js_length E (Auth.displayStreekxId E formData) < 3
     ∨ Auth.js_length E (Auth.password formData) < 6 →
     run.2 = [] ∧ Auth.error_shown run.1 ≠ EmptyString)
  ∧ (mode = Auth.login → ∀ row, Auth.InsertUser row ∉ run.2)
  ∧ (mode = Auth.signup → ∀ i h, Auth.SelectUser i h ∉ run.2).
Proof.
  intros run.
  assert (Auth.js_length E (Auth.displayStreekxId E formData) < 3
          ∨ Auth.js_length E (Auth.password formData) < 6 →
          run.2 = [] ∧ Auth.error_shown run.1 ≠ EmptyString) as Hshort.
  { subst run. unfold Auth.handleSubmit. intros Hlen.
    destruct (Nat.ltb_spec (Auth.js_length E (Auth.displayStreekxId E formData)) 3);
      [done|].
    destruct (Nat.ltb_spec (Auth.js_length E (Auth.password formData)) 6); [done|].
    lia. }
  pose proof (handleSubmit_submission E mode formData) as Hsub. fold run in Hsub.
  destruct Hsub as [msg Hmsg|msg evs Hmsg Hitems Htimeout Hlogin Hsignup
                   |row Hmode Herr Hdata|msg request user ms Hmsg Hset Hreq]; simpl.
  - split; [done|]. split; [by right|]. split; [split; [done|intros [ms Hin]; listed]|].
    split; [intros [ms Hin]; listed|]. split; [done|]. split; listed.
  - split; [done|]. split; [by right|].
    split; [split; [done|intros [ms Hin]; by apply Htimeout in Hin]|].
    split; [intros [ms Hin]; by apply Htimeout in Hin|]. done.
  - split; [done|]. split; [by right|]. split; [split; [done|intros [ms Hin]; listed]|].
    split; [intros [ms Hin]; listed|]. split; [done|]. split; listed.
  - split; [done|]. split; [by left|].
    split; [split; [intros _; exists ms; set_solver|done]|].
    split.
    { intros _. exists user. split; [set_solver|]. split; [done|].
      destruct request; try done; destruct Hreq as (_ & Hd & _).
      - left. eexists. split; [by left|done].
      - right. do 2 eexists. split; [by left|done]. }
    split; [done|].
    destruct request; try done; destruct Hreq as (-> & _ & _); split; listed.
Qed.

(** X17. A submission always tells the user how it went, with one
    exception: it ends with neither an error nor a success message only
    when it is a signup whose insert returns neither an error nor a
    row. *)
Theorem handleSubmit_feedback
    (E : Auth.Env) (mode : Auth.Mode) (formData : Auth.FormData) :
  let run := Auth.handleSubmit E mode formData in
  Auth.error_shown run.1 = EmptyString →
  Auth.success run.1 = EmptyString →
  mode = Auth.signup
  ∧ ∃ row,
      run.2 = [Auth.InsertUser row]
      ∧ Auth.error (Auth.insert_user E row) = None
      ∧ Auth.data (Auth.insert_user E row) = None.
Proof.
  intros run.
  pose proof (handleSubmit_submission E mode formData) as Hsub. fold run in Hsub.
  destruct Hsub as [msg Hmsg|msg evs Hmsg Hitems Htimeout Hlogin Hsignup
                   |row Hmode Herr Hdata|msg request user ms Hmsg Hset Hreq]; simpl;
    intros Herror Hsuccess; try done.
  split; [done|]. by exists row.
Qed.

(** ** Changing the password *)

(** X18. The handler sends an update to the data store only for a
    signed-in user whose two entries are equal and at least six long,
    and what it sends is the hash of the new password; it clears the form
    only after the data store accepted the update; and it throws exactly
    when, all checks passed, the digest rejects, in which case nothing is
    sent and nothing is shown. *)
Theorem handleChangePassword_guards
    (E : Account.Env) (currentUserId : option string) (s : Account.FormState) :
  let form := Account.passwordForm s in
  let run := Account.handleChangePassword E currentUserId s in
  let checked :=
    truthy currentUserId = true
    ∧ Account.new_password form = Account.confirm form
    ∧ 6 ≤ Account.js_length E (Account.new_password form) in
  (∀ s' evs uid h,
     run = Returned (s', evs) → Account.UpdatePassword uid h ∈ evs →
     checked
     ∧ currentUserId = Some uid
     ∧ hashPassword (Account.crypto E) (Account.new_password form) = Returned h
     ∧ (s' ≠ s → Account.update_password E uid h = None
                 ∧ Account.Alert Account.updated ∈ evs))
  ∧ (∀ s' evs, run = Returned (s', evs) → s' ≠ s →
       ∃ uid h, Account.UpdatePassword uid h ∈ evs)
  ∧ (∀ e, run = Threw e ↔
          checked
          ∧ hashPassword (Account.crypto E) (Account.new_password form) = Threw e).
Proof.
  intros form run checked. subst run checked. unfold Account.handleChangePassword.
  fold form.
  destruct currentUserId as [uid|]; simpl.
  2: { split; [|split].
       - intros s' evs uid' h [= <- <-] Hin. listed.
       - by intros s' evs [= <- <-] Hne.
       - intros e. split; [done|]. by intros [(? & _) _]. }
  destruct (truthy_string uid) eqn:Huid; simpl.
  2: { split; [|split].
       - intros s' evs uid' h [= <- <-] Hin. listed.
       - by intros s' evs [= <- <-] Hne.
       - intros e. split; [done|]. by intros [(? & _) _]. }
  destruct (String.eqb_spec (Account.new_password form) (Account.confirm form))
    as [Heq|Hne]; simpl.
  2: { split; [|split].
       - intros s' evs uid' h [= <- <-] Hin. listed.
       - by intros s' evs [= <- <-] Hne'.
       - intros e. split; [done|]. by intros [(_ & ? & _) _]. }
  destruct (Nat.ltb_spec (Account.js_length E (Account.new_password form)) 6)
    as [Hlt|Hge]; simpl.
  { split; [|split].
    - intros s' evs uid' h [= <- <-] Hin. listed.
    - by intros s' evs [= <- <-] Hne'.
    - intros e. split; [done|]. intros [(_ & _ & ?) _]. lia. }
  unfold and_then.
  destruct (hashPassword (Account.crypto E) (Account.new_password form))
    as [hashed|e'] eqn:Hhash.
  - destruct (Account.update_password E uid hashed) as [msg|] eqn:Hup.
    + split; [|split].
      * intros s' evs uid' h [= <- <-] Hin. listed. by repeat split.
      * by intros s' evs [= <- <-] Hne'.
      * intros e. split; [done|]. by intros [_ [=]].
    + split; [|split].
      * intros s' evs uid' h [= <- <-] Hin. listed. repeat split; try done.
        apply elem_of_cons. right. by left.
      * intros s' evs [= <- <-] _. exists uid, hashed. by left.
      * intros e. split; [done|]. by intros [_ [=]].
  - split; [|split]; [done..|].
    intros e. split.
    + by intros [= ->].
    + by intros [_ [= ->]].
Qed.

Example change_password_mismatch :
  Account.handleChangePassword Account.demo_env (Some "user-1")
    (Account.demo_state "secret1" "secret2")
  = Returned (Account.demo_state "secret1" "secret2", [Account.Alert Account.mismatch]).
Proof. vm_compute. reflexivity. Qed.

Example change_password_digest_rejects :
  Account.handleChangePassword
    {| Account.js_length := String.length;
       Account.crypto := {| text_encode := λ _, [];
                            subtle_digest := λ _ _, Threw network_error |};
       Account.update_password := λ _ _, None |}
    (Some "user-1") (Account.demo_state "secret1" "secret1")
  = Threw network_error.
Proof. vm_compute. reflexivity. Qed.

(** ** The further properties at concrete inputs *)

Lemma accumulated_ends_with_result_witness :
  total always_returns
  ∧ ∃ result,
      outcome_of (generateSearchResponse down_provider "q" "s1" always_returns initial_state)
      = Returned result
      ∧ accumulated (events_of
          (generateSearchResponse down_provider "q" "s1" always_returns initial_state))
        = "Par" +:+ result_text result.
Proof.
  split; [exact always_returns_total|].
  exact (accumulated_ends_with_result down_provider "q" "s1" always_returns initial_state
           always_returns_total).
Defined.

Lemma callback_exception_starts_fallback_witness :
  sendMessageStream hello_provider (session_for initial_state "s1") "q"
  = Returned (stream_of [text_chunk "Hel"; text_chunk "lo"; text_chunk " world"])
  ∧ throws_on "lo" "lo" = Threw {| message := "callback failed" |}
  ∧ ∃ rest,
      events_of (generateSearchResponse hello_provider "q" "s1" (throws_on "lo")
                   initial_state)
      = registration initial_state "s1"
          ++ EvSend (session_for initial_state "s1") "q"
          :: (EvChunk <$> increments [text_chunk "Hel"])
          ++ EvChunk "lo"
          :: EvWarn warn_label {| message := "callback failed" |}
          :: EvGenerate fallbackModel "q" fallback_instruction
          :: rest.
Proof.
  split; [reflexivity|]. split; [reflexivity|].
  apply (callback_exception_starts_fallback hello_provider "q" "s1" (throws_on "lo")
           initial_state
           (stream_of [text_chunk "Hel"; text_chunk "lo"; text_chunk " world"])
           [text_chunk "Hel"] [text_chunk " world"] (text_chunk "lo") "lo"
           {| message := "callback failed" |}).
  - reflexivity.
  - reflexivity.
  - intros t' Ht'. apply list_elem_of_singleton in Ht'. rewrite Ht'. reflexivity.
  - reflexivity.
  - reflexivity.
Defined.

Lemma sources_come_from_chunks_witness :
  total always_returns
  ∧ ∃ result,
      outcome_of (generateSearchResponse sourced_provider "q" "s1" always_returns
                    initial_state)
      = Returned result
      ∧ (∀ u, u ∈ uri <$> sources result
              ↔ ∃ chunk,
                  chunk ∈ [ text_chunk "A";
                            grounding_chunk [ web_entry (Some "T") (Some "u1");
                                              web_entry None None ] ]
                  ∧ u ∈ uri <$> extract chunk)
      ∧ (∀ s, s ∈ sources result →
              ∃ chunk,
                chunk ∈ [ text_chunk "A";
                          grounding_chunk [ web_entry (Some "T") (Some "u1");
                                            web_entry None None ] ]
                ∧ s ∈ extract chunk).
Proof.
  split; [exact always_returns_total|].
  exact (sources_come_from_chunks sourced_provider "q" "s1" always_returns initial_state
           _ always_returns_total eq_refl).
Defined.

Example sourced_result :
  outcome_of (generateSearchResponse sourced_provider "q" "s1" always_returns initial_state)
  = Returned {| result_text := "A";
                sources := [ {| title := "T"; uri := "u1" |};
                             {| title := "Source"; uri := "#" |} ] |}.
Proof. vm_compute. reflexivity. Qed.


Lemma no_network_before_validation_witness :
  serve (with_fetch (demo_runtime (Threw network_error))
           (λ _ _, Returned {| ok := true; response_json := Returned JNull |}))
        (post (JObj []))
  = serve (demo_runtime (Threw network_error)) (post (JObj [])).
Proof.
  apply no_network_before_validation.
  right. right. left. exists (JObj []). split; reflexivity.
Defined.

Lemma follow_up_reuses_session_witness :
  App.currentView App.fresh_app = App.home
  ∧ ∃ chat,
      chatSessions (App.handleSearch App.demo_browser hello_provider None App.fresh_app
                      initial_state).1.2 !! App.newId App.demo_browser
      = Some chat
      ∧ App.sessionId
          (App.handleSearch App.demo_browser offline_provider (Some "and then?")
             (App.handleSearch App.demo_browser hello_provider None App.fresh_app
                initial_state).1.1
             (App.handleSearch App.demo_browser hello_provider None App.fresh_app
                initial_state).1.2).1.1
        = App.newId App.demo_browser.
Proof.
  split; [reflexivity|].
  destruct (follow_up_reuses_session App.demo_browser App.demo_browser
              hello_provider offline_provider None (Some "and then?")
              App.fresh_app initial_state eq_refl eq_refl eq_refl eq_refl)
    as (chat & Hreg & Hsid & _).
  exists chat. split; [exact Hreg|exact Hsid].
Defined.

Example search_then_follow_up :
  let first := App.handleSearch App.demo_browser hello_provider None App.fresh_app
                 initial_state in
  let second := App.handleSearch App.demo_browser hello_provider (Some "and then?")
                  first.1.1 first.1.2 in
  App.messages second.1.1
  = [ App.userMsg "what is rocq";
      App.answer_message {| result_text := "Hello world"; sources := [] |};
      App.userMsg "and then?";
      App.answer_message {| result_text := "Hello world"; sources := [] |} ]
  ∧ requests (omap (λ e, match e with App.Service e' => Some e' | _ => None end)
                (first.2 ++ second.2))
    = [ EvSend {| chat_ref := 0 |} "what is rocq";
        EvSend {| chat_ref := 0 |} "and then?" ].
Proof. split; vm_compute; reflexivity. Qed.

Lemma handleSubmit_feedback_witness :
  Auth.error_shown
    (Auth.handleSubmit Auth.quiet_env Auth.signup (Auth.demo_form "alice" "secret1")).1
  = EmptyString
  ∧ Auth.success
      (Auth.handleSubmit Auth.quiet_env Auth.signup (Auth.demo_form "alice" "secret1")).1
    = EmptyString
  ∧ Auth.signup = Auth.signup.
Proof.
  split; [reflexivity|]. split; [reflexivity|].
  exact (proj1 (handleSubmit_feedback Auth.quiet_env Auth.signup
                  (Auth.demo_form "alice" "secret1") eq_refl eq_refl)).
Defined.

Example login_succeeds :
  Auth.handleSubmit Auth.demo_env Auth.login (Auth.demo_form "alice" "secret1")
  = ({| Auth.loading := false; Auth.error_shown := EmptyString;
        Auth.success := "Access Granted." |},
     [ Auth.SelectUser "alice"
         (hex (take 32 (map byte_of_ascii (list_ascii_of_string "secret1")
                          ++ replicate 32 Byte.x00)));
       Auth.SetItem Auth.session_key "user-1";
       Auth.SetTimeout 800 ]).
Proof. vm_compute. reflexivity. Qed.

Example login_unknown_user :
  Auth.error_shown
    (Auth.handleSubmit Auth.demo_env Auth.login (Auth.demo_form "bob" "secret1")).1
  = Auth.invalid_credentials.
Proof. vm_compute. reflexivity. Qed.

Example signup_taken :
  Auth.error_shown
    (Auth.handleSubmit Auth.demo_env Auth.signup (Auth.demo_form "alice" "secret1")).1
  = Auth.id_taken.
Proof. vm_compute. reflexivity. Qed.

Example short_id_wins_over_short_password :
  Auth.handleSubmit Auth.demo_env Auth.login (Auth.demo_form "al" "pw")
  = ({| Auth.loading := false; Auth.error_shown := Auth.id_too_short;
        Auth.success := EmptyString |}, []).
Proof. vm_compute. reflexivity. Qed.

Example hex_example :
  hex [Byte.x00; Byte.x0f; Byte.x10; Byte.xab; Byte.xff] = "000f10abff".
Proof. vm_compute. reflexivity. Qed.
